(** * bpvo: the visual-odometry front end of [src/bpvo/vo.cc]

    A shallow embedding of [VisualOdometry::Impl]: the result validator
    [checkResult], the keyframing decision [shouldKeyFrame], the point
    cloud extractor [getPointCloudFromRefFrame] with [GetColor], the
    constructor and the frame state machine [addFrame].

    The collaborators whose code lives in other translation units (the
    scalar type, 4x4 matrices, the pose estimator, the template data of a
    frame) are interfaces here, given as type classes; every definition
    and theorem below is parametric in them.  A small concrete instance
    ([Demo]) runs the definitions on explicit inputs. *)

From Stdlib Require Import ZArith List Bool Lia QArith.
Import ListNotations.
Local Open Scope Z_scope.

Set Implicit Arguments.

(** ** Interfaces of the collaborators *)

(** The C++ scalar type ([float]) with the operations [vo.cc] applies to
    it.  Division is total, as IEEE division is.  [N_of_Z] and [Ntrunc]
    are the implicit int/float conversions. *)
Class Scalar (num : Type) : Type := {
  Ndiv : num -> num -> num;
  Ngtb : num -> num -> bool;
  Nltb : num -> num -> bool;
  Ngeb : num -> num -> bool;
  Nsq : num -> num;
  N_of_Z : Z -> num;
  Ntrunc : num -> Z;
  (** [std::round(std::log2(a / (double) b))] *)
  roundLog2Ratio : Z -> Z -> Z
}.

(** [Matrix44] with the Eigen operations used on poses, and
    [math::RotationMatrixToEulerAngles(pose).squaredNorm()]. *)
Class Pose (num Matrix44 : Type) : Type := {
  Identity : Matrix44;
  Mmul : Matrix44 -> Matrix44 -> Matrix44;
  Minverse : Matrix44 -> Matrix44;
  translationSquaredNorm : Matrix44 -> num;
  eulerAnglesSquaredNorm : Matrix44 -> num
}.

(** ** Data model *)

Inductive KeyFramingReason : Set :=
| kFirstFrame
| kNoKeyFraming
| kLargeTranslation
| kLargeRotation
| kSmallFracOfGoodPoints
| kEstimationFailed.

Definition KeyFramingReason_eqb (a b : KeyFramingReason) : bool :=
  match a, b with
  | kFirstFrame, kFirstFrame
  | kNoKeyFraming, kNoKeyFraming
  | kLargeTranslation, kLargeTranslation
  | kLargeRotation, kLargeRotation
  | kSmallFracOfGoodPoints, kSmallFracOfGoodPoints
  | kEstimationFailed, kEstimationFailed => true
  | _, _ => false
  end.

(** Modelled from the spec: the enumeration [PoseEstimationStatus] is
    declared outside [vo.cc]; the spec gives a solver termination status
    that is either ok or error, and [vo.cc] names only [kSolverError]. *)
Inductive PoseEstimationStatus : Set :=
| kSolverOk
| kSolverError.

Definition is_kSolverError (s : PoseEstimationStatus) : bool :=
  match s with kSolverError => true | kSolverOk => false end.

(** The fields of [OptimizerStatistics] that [vo.cc] reads. *)
Record OptimizerStatistics (num : Type) : Type := {
  finalError : num;
  numPixels : num;
  status : PoseEstimationStatus
}.

(** The fields of [AlgorithmParameters] that [vo.cc] reads. *)
Record AlgorithmParameters (num : Type) : Type := {
  numPyramidLevels : Z;
  minImageDimensionForPyramid : Z;
  maxTestLevel : Z;
  maxSolutionError : num;
  minTranslationMagToKeyFrame : num;
  minRotationMagToKeyFrame : num;
  goodPointThreshold : num;
  maxFractionOfGoodPointsToKeyFrame : num
}.

(** ** Reads of a [std::vector] and the run of a const method

    [operator[]] outside [0, size) is undefined behaviour: the model
    stops there with a fault.  A run keeps the list of what it touched
    (vector reads, divisions), also when it faults. *)

Inductive Fault : Set :=
| OutOfRange (i : Z) (size : nat)
| NullImage.

Inductive Access (num : Type) : Type :=
| ReadStat (i : Z)
| Divide (a b : num).
Arguments ReadStat {num} i.

Record Checked (num A : Type) : Type := {
  touched : list (Access num);
  verdict : Fault + A
}.

Module CheckedMonad.

Definition ret {num A} (a : A) : Checked num A :=
  {| touched := []; verdict := inr a |}.

Definition bind {num A B} (m : Checked num A) (f : A -> Checked num B)
  : Checked num B :=
  match verdict m with
  | inl e => {| touched := touched m; verdict := inl e |}
  | inr a => {| touched := touched m ++ touched (f a);
                verdict := verdict (f a) |}
  end.

Definition note {num} (a : Access num) : Checked num unit :=
  {| touched := [a]; verdict := inr tt |}.

Definition fault {num A} (e : Fault) : Checked num A :=
  {| touched := []; verdict := inl e |}.

End CheckedMonad.

Declare Scope checked_scope.
Delimit Scope checked_scope with checked.
Notation "x <- m ;; k" := (CheckedMonad.bind m (fun x => k))
  (at level 61, m at next level, right associativity) : checked_scope.
Notation "m ;; k" := (CheckedMonad.bind m (fun _ => k))
  (at level 61, right associativity) : checked_scope.

(** [v[i]] for an [int] index [i]. *)
Definition at_index {A} (v : list A) (i : Z) : option A :=
  if i <? 0 then None else nth_error v (Z.to_nat i).

(** The indices [hi, hi-1, ..., lo] visited by
    [for (int i = hi; i >= lo; --i)]. *)
Definition down_range (hi lo : Z) : list Z :=
  map (fun k => hi - Z.of_nat k) (seq 0 (Z.to_nat (hi - lo + 1))).

Section Validator.

Context {num : Type} `{Scalar num}.
Import CheckedMonad.
Local Open Scope checked_scope.

Local Abbreviation Stats := (OptimizerStatistics num).

(** [stats[i]] *)
Definition stats_at (stats : list Stats) (i : Z) : Checked num Stats :=
  note (ReadStat i) ;;
  match at_index stats i with
  | Some s => ret s
  | None => fault (OutOfRange i (length stats))
  end.

(** [a / b] *)
Definition divide (a b : num) : Checked num num :=
  note (Divide a b) ;; ret (Ndiv a b).

(** The first loop of [checkResult]: it formats [stats[i].finalError]
    and [stats[i].numPixels] into a string that only the diagnostic
    message uses. *)
Fixpoint format_levels (stats : list Stats) (idxs : list Z)
    : Checked num unit :=
  match idxs with
  | [] => ret tt
  | i :: rest => _ <- stats_at stats i ;; format_levels stats rest
  end.

(** The second loop: [return false] at the first solver error. *)
Fixpoint scan_status (stats : list Stats) (idxs : list Z)
    : Checked num bool :=
  match idxs with
  | [] => ret true
  | i :: rest =>
      s <- stats_at stats i ;;
      if is_kSolverError (status s) then ret false
      else scan_status stats rest
  end.

(** [VisualOdometry::Impl::checkResult]; it reads [_params] only.  The
    [int] loop index and [stats.size() - 1] are integers of [Z]: a vector
    size fits an [int], and an empty vector gives [-1]. *)
Definition checkResult (_params : AlgorithmParameters num)
    (stats : list Stats) : Checked num bool :=
  let last := Z.of_nat (length stats) - 1 in
  format_levels stats (down_range last (maxTestLevel _params)) ;;
  finStats <- stats_at stats (maxTestLevel _params) ;;
  ratio <- divide (finalError finStats) (numPixels finStats) ;;
  if Ngtb ratio (maxSolutionError _params) then ret false
  else scan_status stats (down_range last (maxTestLevel _params)).

(** The reads of a run are at indices that satisfy [P]. *)
Definition reads_within (P : Z -> Prop) (l : list (Access num)) : Prop :=
  Forall (fun a => match a with ReadStat i => P i | Divide _ _ => True end) l.

(** The divisors of the divisions of a run satisfy [P]. *)
Definition divisors_within (P : num -> Prop) (l : list (Access num)) : Prop :=
  Forall (fun a => match a with ReadStat _ => True | Divide _ b => P b end) l.

End Validator.

(** ** Frames

    Modelled from the spec: [VisualOdometryFrame] is defined outside
    [vo.cc].  The spec gives its lifecycle: a frame is empty, raw or
    templated; [setData] stores raw sensor data and invalidates any prior
    template; [setTemplate] promotes raw data to a template; [clear]
    returns the frame to empty; [hasTemplate] and [empty] report the
    state; a frame has one template level per pyramid level of the
    parameters it was built with.  [storage] identifies the heap object a
    slot points to.  The spec does not say what [setTemplate] does on an
    empty frame: the model leaves such a frame empty. *)

Inductive FrameState (Image Disparity : Type) : Type :=
| FrameEmpty
| FrameRaw (image : Image) (disparity : Disparity)
| FrameTemplated (image : Image) (disparity : Disparity).
Arguments FrameEmpty {Image Disparity}.

Record VisualOdometryFrame (Image Disparity : Type) : Type := {
  storage : nat;
  numLevels : nat;
  frame_state : FrameState Image Disparity
}.

Section FrameOps.

Context {num Matrix33 Image Disparity : Type}.
Local Abbreviation Frame := (VisualOdometryFrame Image Disparity).

Definition with_state (f : Frame) (s : FrameState Image Disparity) : Frame :=
  {| storage := storage f; numLevels := numLevels f; frame_state := s |}.

(** [make_unique<VisualOdometryFrame>(K, b, _params)], allocated at
    [addr]. *)
Definition Frame_new (addr : nat) (K : Matrix33) (b : num)
    (p : AlgorithmParameters num) : Frame :=
  {| storage := addr;
     numLevels := Z.to_nat (numPyramidLevels p);
     frame_state := FrameEmpty |}.

Definition setData (img : Image) (dis : Disparity) (f : Frame) : Frame :=
  with_state f (FrameRaw img dis).

Definition hasTemplate (f : Frame) : bool :=
  match frame_state f with FrameTemplated _ _ => true | _ => false end.

Definition setTemplate (f : Frame) : Frame :=
  match frame_state f with
  | FrameEmpty => f
  | FrameRaw img dis | FrameTemplated img dis =>
      with_state f (FrameTemplated img dis)
  end.

Definition clear (f : Frame) : Frame := with_state f FrameEmpty.

Definition empty (f : Frame) : bool :=
  match frame_state f with FrameEmpty => true | _ => false end.

(** [imagePointer()]: null while the frame holds no image. *)
Definition imagePointer (f : Frame) : option Image :=
  match frame_state f with
  | FrameEmpty => None
  | FrameRaw img _ | FrameTemplated img _ => Some img
  end.

End FrameOps.

(** A grayscale [cv::Mat]: [image.rows], [image.cols] and the stored
    sample at a row and a column. *)
Class Raster (Image : Type) : Type := {
  mat_rows : Image -> Z;
  mat_cols : Image -> Z;
  sample : Image -> Z -> Z -> Z
}.

(** [image.at<uint8_t>(row, col)] *)
Definition at_uint8 {Image} `{Raster Image} (image : Image) (row col : Z) : Z :=
  sample image row col mod 256.

(** [getTemplateDataAtLevel(level)] of a frame, with [points()] and
    [warp()] of the template data, and [warp.getImagePoint(p)], whose two
    components are [uv[0]] and [uv[1]]. *)
Class TemplateAccess (num Image Disparity Point Warp : Type) : Type := {
  templatePoints : VisualOdometryFrame Image Disparity -> Z -> list Point;
  templateWarp : VisualOdometryFrame Image Disparity -> Z -> Warp;
  getImagePoint : Warp -> Point -> num * num
}.

(** [VisualOdometryPoseEstimator]: [estimatePose] returns the statistics
    and the estimate [T_est] and moves the estimator to a new state, which
    [getFractionOfGoodPoints] and [getWeights] read. *)
Class PoseEstimator (num Matrix44 Image Disparity Est : Type) : Type := {
  newEstimator : AlgorithmParameters num -> Est;
  estimatePose : Est -> VisualOdometryFrame Image Disparity ->
                 VisualOdometryFrame Image Disparity -> Matrix44 ->
                 Est * list (OptimizerStatistics num) * Matrix44;
  getFractionOfGoodPoints : Est -> num -> num;
  getWeights : Est -> list num
}.

(** [PointWithInfo::Color], four 8-bit channels. *)
Record Color : Set := { red : Z; green : Z; blue : Z; alpha : Z }.

Record PointWithInfo (num Point : Type) : Type := {
  xyzw : Point;
  rgba : Color;
  weight : num
}.

Definition PointCloud (num Point : Type) : Type :=
  list (PointWithInfo num Point).

Record ImageSize : Set := { rows : Z; cols : Z }.

Record Result (num Matrix44 Point : Type) : Type := {
  success : bool;
  displacement : Matrix44;
  covariance : Matrix44;
  optimizerStatistics : list (OptimizerStatistics num);
  isKeyFrame : bool;
  keyFramingReason : KeyFramingReason;
  pointCloud : option (PointCloud num Point)
}.

(** The values of [Result r;] and of a default-constructed
    [OptimizerStatistics], both declared outside [vo.cc]. *)
Class Defaults (num Matrix44 Point : Type) : Type := {
  Result_new : Result num Matrix44 Point;
  OptimizerStatistics_new : OptimizerStatistics num
}.

Section ResultFields.

Context {num Matrix44 Point : Type}.
Local Abbreviation Res := (Result num Matrix44 Point).

Definition set_success (r : Res) (b : bool) : Res :=
  {| success := b; displacement := displacement r;
     covariance := covariance r;
     optimizerStatistics := optimizerStatistics r;
     isKeyFrame := isKeyFrame r; keyFramingReason := keyFramingReason r;
     pointCloud := pointCloud r |}.

Definition set_displacement (r : Res) (T : Matrix44) : Res :=
  {| success := success r; displacement := T;
     covariance := covariance r;
     optimizerStatistics := optimizerStatistics r;
     isKeyFrame := isKeyFrame r; keyFramingReason := keyFramingReason r;
     pointCloud := pointCloud r |}.

Definition set_covariance (r : Res) (C : Matrix44) : Res :=
  {| success := success r; displacement := displacement r;
     covariance := C;
     optimizerStatistics := optimizerStatistics r;
     isKeyFrame := isKeyFrame r; keyFramingReason := keyFramingReason r;
     pointCloud := pointCloud r |}.

Definition set_optimizerStatistics (r : Res)
    (s : list (OptimizerStatistics num)) : Res :=
  {| success := success r; displacement := displacement r;
     covariance := covariance r;
     optimizerStatistics := s;
     isKeyFrame := isKeyFrame r; keyFramingReason := keyFramingReason r;
     pointCloud := pointCloud r |}.

Definition set_isKeyFrame (r : Res) (b : bool) : Res :=
  {| success := success r; displacement := displacement r;
     covariance := covariance r;
     optimizerStatistics := optimizerStatistics r;
     isKeyFrame := b; keyFramingReason := keyFramingReason r;
     pointCloud := pointCloud r |}.

Definition set_keyFramingReason (r : Res) (k : KeyFramingReason) : Res :=
  {| success := success r; displacement := displacement r;
     covariance := covariance r;
     optimizerStatistics := optimizerStatistics r;
     isKeyFrame := isKeyFrame r; keyFramingReason := k;
     pointCloud := pointCloud r |}.

Definition set_pointCloud (r : Res) (c : option (PointCloud num Point)) : Res :=
  {| success := success r; displacement := displacement r;
     covariance := covariance r;
     optimizerStatistics := optimizerStatistics r;
     isKeyFrame := isKeyFrame r; keyFramingReason := keyFramingReason r;
     pointCloud := c |}.

End ResultFields.

(** ** [VisualOdometry::Impl] *)

(** The three [UniquePointer<VisualOdometryFrame>] slots are never null:
    the constructor fills them and [addFrame] only swaps them. *)
Record Impl (num Matrix44 Image Disparity Est : Type) : Type := {
  _params : AlgorithmParameters num;
  _image_size : ImageSize;
  _vo_pose : Est;
  _ref_frame : VisualOdometryFrame Image Disparity;
  _cur_frame : VisualOdometryFrame Image Disparity;
  _prev_frame : VisualOdometryFrame Image Disparity;
  _T_kf : Matrix44;
  _trajectory : list Matrix44
}.

(** What one call of [addFrame] asks of its collaborators and of the
    other methods, in order. *)
Inductive Event (num Matrix44 Image Disparity : Type) : Type :=
| EvEstimatePose (ref cur : VisualOdometryFrame Image Disparity)
                 (T_guess : Matrix44)
| EvCheckResult (stats : list (OptimizerStatistics num))
| EvShouldKeyFrame (pose : Matrix44)
| EvGetPointCloud.
Arguments EvGetPointCloud {num Matrix44 Image Disparity}.
Arguments EvCheckResult {num Matrix44 Image Disparity} stats.
Arguments EvShouldKeyFrame {num Matrix44 Image Disparity} pose.
Arguments EvEstimatePose {num Matrix44 Image Disparity} ref cur T_guess.

Definition is_EvEstimatePose {num Matrix44 Image Disparity}
    (e : Event num Matrix44 Image Disparity) : bool :=
  match e with EvEstimatePose _ _ _ => true | _ => false end.

Definition is_EvShouldKeyFrame {num Matrix44 Image Disparity}
    (e : Event num Matrix44 Image Disparity) : bool :=
  match e with EvShouldKeyFrame _ => true | _ => false end.

Section ImplFields.

Context {num Matrix44 Image Disparity Est : Type}.
Local Abbreviation Frame := (VisualOdometryFrame Image Disparity).
Local Abbreviation This := (Impl num Matrix44 Image Disparity Est).

Definition set_params (this : This) (p : AlgorithmParameters num) : This :=
  {| _params := p; _image_size := _image_size this;
     _vo_pose := _vo_pose this; _ref_frame := _ref_frame this;
     _cur_frame := _cur_frame this; _prev_frame := _prev_frame this;
     _T_kf := _T_kf this; _trajectory := _trajectory this |}.

Definition set_vo_pose (this : This) (e : Est) : This :=
  {| _params := _params this; _image_size := _image_size this;
     _vo_pose := e; _ref_frame := _ref_frame this;
     _cur_frame := _cur_frame this; _prev_frame := _prev_frame this;
     _T_kf := _T_kf this; _trajectory := _trajectory this |}.

Definition set_ref_frame (this : This) (f : Frame) : This :=
  {| _params := _params this; _image_size := _image_size this;
     _vo_pose := _vo_pose this; _ref_frame := f;
     _cur_frame := _cur_frame this; _prev_frame := _prev_frame this;
     _T_kf := _T_kf this; _trajectory := _trajectory this |}.

Definition set_cur_frame (this : This) (f : Frame) : This :=
  {| _params := _params this; _image_size := _image_size this;
     _vo_pose := _vo_pose this; _ref_frame := _ref_frame this;
     _cur_frame := f; _prev_frame := _prev_frame this;
     _T_kf := _T_kf this; _trajectory := _trajectory this |}.

Definition set_prev_frame (this : This) (f : Frame) : This :=
  {| _params := _params this; _image_size := _image_size this;
     _vo_pose := _vo_pose this; _ref_frame := _ref_frame this;
     _cur_frame := _cur_frame this; _prev_frame := f;
     _T_kf := _T_kf this; _trajectory := _trajectory this |}.

Definition set_T_kf (this : This) (T : Matrix44) : This :=
  {| _params := _params this; _image_size := _image_size this;
     _vo_pose := _vo_pose this; _ref_frame := _ref_frame this;
     _cur_frame := _cur_frame this; _prev_frame := _prev_frame this;
     _T_kf := T; _trajectory := _trajectory this |}.

Definition set_trajectory (this : This) (t : list Matrix44) : This :=
  {| _params := _params this; _image_size := _image_size this;
     _vo_pose := _vo_pose this; _ref_frame := _ref_frame this;
     _cur_frame := _cur_frame this; _prev_frame := _prev_frame this;
     _T_kf := _T_kf this; _trajectory := t |}.

(** [std::swap] of two slots: the slots exchange the frames they own. *)
Definition swap_ref_cur (this : This) : This :=
  set_cur_frame (set_ref_frame this (_cur_frame this)) (_ref_frame this).

Definition swap_prev_cur (this : This) : This :=
  set_cur_frame (set_prev_frame this (_cur_frame this)) (_prev_frame this).

Definition swap_prev_ref (this : This) : This :=
  set_ref_frame (set_prev_frame this (_ref_frame this)) (_prev_frame this).

End ImplFields.

(** ** Methods that change the object

    A method is a function of the object [this]; its run gives the
    events it raised and either a fault or the returned value with the
    object as the method left it. *)

Record Run (Ev St A : Type) : Type := {
  events : list Ev;
  outcome : Fault + (A * St)
}.

Module MethodMonad.

Definition M (Ev St A : Type) : Type := St -> Run Ev St A.

Definition ret {Ev St A} (a : A) : M Ev St A :=
  fun this => {| events := []; outcome := inr (a, this) |}.

Definition bind {Ev St A B} (m : M Ev St A) (f : A -> M Ev St B) : M Ev St B :=
  fun this =>
    match outcome (m this) with
    | inl e => {| events := events (m this); outcome := inl e |}
    | inr (a, this') =>
        {| events := events (m this) ++ events (f a this');
           outcome := outcome (f a this') |}
    end.

Definition get {Ev St} : M Ev St St :=
  fun this => {| events := []; outcome := inr (this, this) |}.

Definition modify {Ev St} (f : St -> St) : M Ev St unit :=
  fun this => {| events := []; outcome := inr (tt, f this) |}.

Definition emit {Ev St} (e : Ev) : M Ev St unit :=
  fun this => {| events := [e]; outcome := inr (tt, this) |}.

Definition lift {Ev St A} (r : Fault + A) : M Ev St A :=
  fun this =>
    {| events := [];
       outcome := match r with inl e => inl e | inr a => inr (a, this) end |}.

(** The run [r] after the event [e]. *)
Definition after {Ev St A} (e : Ev) (r : Run Ev St A) : Run Ev St A :=
  {| events := e :: events r; outcome := outcome r |}.

End MethodMonad.

Declare Scope method_scope.
Delimit Scope method_scope with method.
Notation "x <- m ;; k" := (MethodMonad.bind m (fun x => k))
  (at level 61, m at next level, right associativity) : method_scope.
Notation "m ;; k" := (MethodMonad.bind m (fun _ => k))
  (at level 61, right associativity) : method_scope.

Section VisualOdometry.

Context {num Matrix44 Matrix33 Image Disparity Point Warp Est : Type}.
Context {SC : Scalar num} {PO : Pose num Matrix44} {RA : Raster Image}.
Context {TA : TemplateAccess num Image Disparity Point Warp}.
Context {PE : PoseEstimator num Matrix44 Image Disparity Est}.
Context {DF : Defaults num Matrix44 Point}.

Local Abbreviation Frame := (VisualOdometryFrame Image Disparity).
Local Abbreviation This := (Impl num Matrix44 Image Disparity Est).
Local Abbreviation Stats := (OptimizerStatistics num).
Local Abbreviation Res := (Result num Matrix44 Point).
Local Abbreviation Ev := (Event num Matrix44 Image Disparity).
Local Abbreviation Method := (MethodMonad.M Ev This).

(** [VisualOdometry::Impl::Impl]; the three frames are three distinct
    heap objects. *)
Definition Impl_new (K : Matrix33) (b : num) (s : ImageSize)
    (p : AlgorithmParameters num) : This :=
  let _params :=
    if numPyramidLevels p <=? 0 then
      {| numPyramidLevels :=
           1 + roundLog2Ratio (Z.min (rows s) (cols s))
                              (minImageDimensionForPyramid p);
         minImageDimensionForPyramid := minImageDimensionForPyramid p;
         maxTestLevel := maxTestLevel p;
         maxSolutionError := maxSolutionError p;
         minTranslationMagToKeyFrame := minTranslationMagToKeyFrame p;
         minRotationMagToKeyFrame := minRotationMagToKeyFrame p;
         goodPointThreshold := goodPointThreshold p;
         maxFractionOfGoodPointsToKeyFrame :=
           maxFractionOfGoodPointsToKeyFrame p |}
    else p in
  {| _params := _params;
     _image_size := s;
     _vo_pose := newEstimator (Matrix44 := Matrix44) (Image := Image)
                              (Disparity := Disparity) p;
     _ref_frame := Frame_new 0 K b _params;
     _cur_frame := Frame_new 1 K b _params;
     _prev_frame := Frame_new 2 K b _params;
     _T_kf := Identity;
     _trajectory := [] |}.

(** [FirstFrameResult] *)
Definition FirstFrameResult (n_levels : nat) : Res :=
  let r := Result_new in
  let r := set_success r false in
  let r := set_displacement r Identity in
  let r := set_covariance r Identity in
  let r := set_optimizerStatistics r
             (repeat OptimizerStatistics_new n_levels) in
  let r := set_isKeyFrame r true in
  let r := set_keyFramingReason r kFirstFrame in
  let r := set_pointCloud r None in
  r.

(** [VisualOdometry::Impl::shouldKeyFrame], a const method. *)
Definition shouldKeyFrame (this : This) (pose : Matrix44) : KeyFramingReason :=
  let t_norm := translationSquaredNorm pose in
  if Ngtb t_norm (Nsq (minTranslationMagToKeyFrame (_params this)))
  then kLargeTranslation
  else
    let r_norm := eulerAnglesSquaredNorm pose in
    if Ngtb r_norm (Nsq (minRotationMagToKeyFrame (_params this)))
    then kLargeRotation
    else
      let frac_good :=
        getFractionOfGoodPoints (Matrix44 := Matrix44) (Image := Image)
          (Disparity := Disparity) (_vo_pose this)
          (goodPointThreshold (_params this)) in
      if Nltb frac_good (maxFractionOfGoodPointsToKeyFrame (_params this))
      then kSmallFracOfGoodPoints
      else kNoKeyFraming.

(** [VisualOdometry::Impl::pointsAtLevel]; [_ref_frame] is never null. *)
Definition pointsAtLevel (this : This) (level : Z) : list Point :=
  let level := if level <? 0 then maxTestLevel (_params this) else level in
  templatePoints (num := num) (Warp := Warp) (_ref_frame this) level.


(** [GetColor] *)
Definition GetColor (image : Image) (warp : Warp) (p : Point) : Color :=
  let uv := getImagePoint (Image := Image) (Disparity := Disparity) warp p in
  let c :=
    if Ngeb (snd uv) (N_of_Z 0) && Nltb (snd uv) (N_of_Z (mat_rows image)) &&
       Ngeb (fst uv) (N_of_Z 0) && Nltb (fst uv) (N_of_Z (mat_cols image))
    then at_uint8 image (Ntrunc (snd uv)) (Ntrunc (fst uv))
    else 0 in
  {| red := c; green := c; blue := c; alpha := 255 |}.

(** [VisualOdometry::Impl::getPointCloudFromRefFrame], a const method;
    [None] is the null pointer.  The loop fills entry [i] from
    [points[i]] and [weights[i]], for [i] below the common size. *)
Definition getPointCloudFromRefFrame (this : This)
    : Fault + option (PointCloud num Point) :=
  let points := pointsAtLevel this (maxTestLevel (_params this)) in
  let weights :=
    getWeights (Matrix44 := Matrix44) (Image := Image)
               (Disparity := Disparity) (_vo_pose this) in
  let n := length points in
  if negb (Nat.eqb n (length weights)) then inr None
  else
    match imagePointer (_ref_frame this) with
    | None => inl NullImage
    | Some image =>
        let warp := templateWarp (num := num) (Point := Point)
                      (_ref_frame this) (maxTestLevel (_params this)) in
        inr (Some (map (fun pw =>
                          {| xyzw := fst pw;
                             rgba := GetColor image warp (fst pw);
                             weight := snd pw |})
                       (combine points weights)))
    end.

Import MethodMonad.
Local Open Scope method_scope.

(** [_vo_pose->estimatePose(_ref_frame.get(), _cur_frame.get(), T_guess,
    T_est)]: the statistics and [T_est]. *)
Definition this_estimatePose (T_guess : Matrix44)
    : Method (list Stats * Matrix44) :=
  this <- get ;;
  emit (EvEstimatePose (_ref_frame this) (_cur_frame this) T_guess) ;;
  let est := estimatePose (_vo_pose this) (_ref_frame this) (_cur_frame this)
                          T_guess in
  modify (fun this => set_vo_pose this (fst (fst est))) ;;
  ret (snd (fst est), snd est).

(** [checkResult(stats)] called on [this] *)
Definition this_checkResult (stats : list Stats) : Method bool :=
  this <- get ;;
  emit (EvCheckResult stats) ;;
  lift (verdict (checkResult (_params this) stats)).

(** [shouldKeyFrame(pose)] called on [this] *)
Definition this_shouldKeyFrame (pose : Matrix44) : Method KeyFramingReason :=
  this <- get ;;
  emit (EvShouldKeyFrame pose) ;;
  ret (shouldKeyFrame this pose).

(** [getPointCloudFromRefFrame()] called on [this] *)
Definition this_getPointCloudFromRefFrame
    : Method (option (PointCloud num Point)) :=
  this <- get ;;
  emit EvGetPointCloud ;;
  lift (getPointCloudFromRefFrame this).

(** [VisualOdometry::Impl::addFrame].  The diagnostic output ([Info],
    [dprintf]) is left out. *)
Definition addFrame (img : Image) (dis : Disparity) (guess : Matrix44)
    : Method Res :=
  modify (fun this => set_cur_frame this (setData img dis (_cur_frame this))) ;;
  this <- get ;;
  if negb (hasTemplate (_ref_frame this)) then
    modify swap_ref_cur ;;
    modify (fun this => set_ref_frame this (setTemplate (_ref_frame this))) ;;
    modify (fun this =>
              set_trajectory this (_trajectory this ++ [_T_kf this])) ;;
    this <- get ;;
    ret (FirstFrameResult (numLevels (_ref_frame this)))
  else
    let T_guess := Mmul (_T_kf this) guess in
    est <- this_estimatePose T_guess ;;
    let T_est := snd est in
    let r := set_optimizerStatistics Result_new (fst est) in
    ok <- this_checkResult (optimizerStatistics r) ;;
    let r := set_success r ok in
    reason <- (if negb (success r) then ret kEstimationFailed
               else this_shouldKeyFrame T_est) ;;
    let r := set_keyFramingReason r reason in
    let r := set_isKeyFrame r
               (negb (KeyFramingReason_eqb kNoKeyFraming
                                           (keyFramingReason r))) in
    if negb (isKeyFrame r) then
      modify swap_prev_cur ;;
      this <- get ;;
      let r := set_displacement r (Mmul T_est (Minverse (_T_kf this))) in
      modify (fun this => set_T_kf this T_est) ;;
      ret r
    else
      modify (fun this => set_T_kf this Identity) ;;
      cloud <- this_getPointCloudFromRefFrame ;;
      let r := set_pointCloud r cloud in
      this <- get ;;
      if empty (_prev_frame this) then
        modify swap_ref_cur ;;
        modify (fun this =>
                  set_ref_frame this (setTemplate (_ref_frame this))) ;;
        ret (set_success r false)
      else
        modify swap_prev_ref ;;
        modify (fun this => set_prev_frame this (clear (_prev_frame this))) ;;
        modify (fun this =>
                  set_ref_frame this (setTemplate (_ref_frame this))) ;;
        let T_guess := guess in
        est <- this_estimatePose T_guess ;;
        let T_est := snd est in
        let r := set_optimizerStatistics r (fst est) in
        let r := set_displacement r T_est in
        modify (fun this => set_T_kf this T_est) ;;
        ok <- this_checkResult (optimizerStatistics r) ;;
        let r := set_success r ok in
        reason <- (if negb (success r) then ret kEstimationFailed
                   else this_shouldKeyFrame T_est) ;;
        let r := set_keyFramingReason r reason in
        let r := if negb (KeyFramingReason_eqb (keyFramingReason r)
                                               kNoKeyFraming)
                 then set_success r false else r in
        ret r.

(** ** What one call is given

    Names for the values a call of [addFrame] on [this] works with: the
    current frame once [setData] has stored the new data, and the replies
    of the estimator to the primary and to the backup estimation. *)

Definition fed (this : This) (img : Image) (dis : Disparity) : Frame :=
  setData img dis (_cur_frame this).

Definition primary (this : This) (img : Image) (dis : Disparity)
    (guess : Matrix44) : Est * list Stats * Matrix44 :=
  estimatePose (_vo_pose this) (_ref_frame this) (fed this img dis)
               (Mmul (_T_kf this) guess).

Definition backup (this : This) (img : Image) (dis : Disparity)
    (guess : Matrix44) : Est * list Stats * Matrix44 :=
  estimatePose (fst (fst (primary this img dis guess)))
               (setTemplate (_prev_frame this)) (fed this img dis) guess.

(** The reason lines 169 to 178 of [addFrame] attach to an estimate whose
    statistics are [stats] and whose pose is [T_est], the estimator being
    in state [e]. *)
Definition reason_of (this : This) (e : Est) (stats : list Stats)
    (T_est : Matrix44) : Fault + KeyFramingReason :=
  match verdict (checkResult (_params this) stats) with
  | inl f => inl f
  | inr false => inr kEstimationFailed
  | inr true => inr (shouldKeyFrame (set_vo_pose this e) T_est)
  end.

Definition primary_reason (this : This) (img : Image) (dis : Disparity)
    (guess : Matrix44) : Fault + KeyFramingReason :=
  let est := primary this img dis guess in
  reason_of this (fst (fst est)) (snd (fst est)) (snd est).

(** The objects reached from a fresh one by completed calls of
    [addFrame]. *)
Inductive Reachable : This -> Prop :=
| Reachable_new (K : Matrix33) (b : num) (s : ImageSize)
    (p : AlgorithmParameters num) :
    Reachable (Impl_new K b s p)
| Reachable_addFrame (this this' : This) (img : Image) (dis : Disparity)
    (guess : Matrix44) (r : Res) :
    Reachable this ->
    outcome (addFrame img dis guess this) = inr (r, this') ->
    Reachable this'.

(** The heap objects the three slots point to. *)
Definition slots (this : This) : list nat :=
  [storage (_ref_frame this); storage (_cur_frame this);
   storage (_prev_frame this)].

(** The slots that hold a templated frame. *)
Definition templated (this : This) : list Frame :=
  filter hasTemplate [_ref_frame this; _cur_frame this; _prev_frame this].

End VisualOdometry.

(** ** What a trace shows *)

Definition is_EvCheckResult {num Matrix44 Image Disparity}
    (e : Event num Matrix44 Image Disparity) : bool :=
  match e with EvCheckResult _ => true | _ => false end.

Definition is_EvGetPointCloud {num Matrix44 Image Disparity}
    (e : Event num Matrix44 Image Disparity) : bool :=
  match e with EvGetPointCloud => true | _ => false end.

Section Traces.

Context {num Matrix44 Image Disparity : Type} {SC : Scalar num}.
Local Abbreviation Frame := (VisualOdometryFrame Image Disparity).
Local Abbreviation Ev := (Event num Matrix44 Image Disparity).

(** Every call of [shouldKeyFrame] in the trace comes right after a call
    of [checkResult] that accepted its statistics under the parameters
    [p]; [before] is the event that precedes the trace. *)
Fixpoint decisions_guarded (p : AlgorithmParameters num) (before : option Ev)
    (evs : list Ev) : Prop :=
  match evs with
  | [] => True
  | e :: rest =>
      match e with
      | EvShouldKeyFrame _ =>
          match before with
          | Some (EvCheckResult stats) =>
              verdict (checkResult p stats) = inr true
          | _ => False
          end
      | _ => True
      end /\ decisions_guarded p (Some e) rest
  end.

(** The frames handed to [estimatePose]: a templated reference and a raw
    current frame, held in two distinct heap objects. *)
Definition estimate_well_formed (e : Ev) : Prop :=
  match e with
  | EvEstimatePose ref cur _ =>
      hasTemplate ref = true /\ hasTemplate cur = false /\
      empty cur = false /\ storage ref <> storage cur
  | _ => True
  end.

End Traces.

(** ** The public class [VisualOdometry] *)

(** [cv::Mat::empty()] *)
Class MatEmpty (Mat : Type) : Type := {
  mat_empty : Mat -> bool
}.


(** [VisualOdometry] owns its implementation through [_impl]. *)
Record VisualOdometry (num Matrix44 Image Disparity Est : Type) : Type := {
  _impl : Impl num Matrix44 Image Disparity Est
}.

Section PublicClass.

Context {num Matrix44 Matrix33 Image Disparity Point Warp Est : Type}.
Context {SC : Scalar num} {PO : Pose num Matrix44} {RA : Raster Image}.
Context {TA : TemplateAccess num Image Disparity Point Warp}.
Context {PE : PoseEstimator num Matrix44 Image Disparity Est}.
Context {DF : Defaults num Matrix44 Point}.
Context {MI : MatEmpty Image} {MD : MatEmpty Disparity}.

Local Abbreviation Public := (VisualOdometry num Matrix44 Image Disparity Est).






End PublicClass.

(** ** A concrete instance

    Scalars are rationals.  A pose is a motion along and about the
    optical axis, given by its angle and its translation; such motions
    compose by adding angles and translations, their Euler angles are
    (0, 0, angle) and their translation is (0, 0, translation).  An image
    is a list of rows of samples, and the estimator answers from a script,
    one reply per call of [estimatePose]. *)

Module Demo.

Local Open Scope Q_scope.

#[export] Instance Scalar_Q : Scalar Q := {|
  Ndiv := Qdiv;
  Ngtb := fun a b => negb (Qle_bool a b);
  Nltb := fun a b => negb (Qle_bool b a);
  Ngeb := fun a b => Qle_bool b a;
  Nsq := fun a => a * a;
  N_of_Z := inject_Z;
  Ntrunc := fun a => Z.quot (Qnum a) (Zpos (Qden a));
  roundLog2Ratio := fun a b => Z.log2 (a / b)
|}.

Record Screw : Set := { angle : Q; along : Q }.

#[export] Instance Pose_Screw : Pose Q Screw := {|
  Identity := {| angle := 0; along := 0 |};
  Mmul := fun a b =>
    {| angle := angle a + angle b; along := along a + along b |};
  Minverse := fun a => {| angle := - angle a; along := - along a |};
  translationSquaredNorm := fun a => along a * along a;
  eulerAnglesSquaredNorm := fun a => angle a * angle a
|}.

Definition Gray : Type := list (list Z).

#[export] Instance Raster_Gray : Raster Gray := {|
  mat_rows := fun g => Z.of_nat (length g);
  mat_cols := fun g => Z.of_nat (length (hd [] g));
  sample := fun g r c => nth (Z.to_nat c) (nth (Z.to_nat r) g []) 0%Z
|}.

(** A matrix without rows or without columns is empty. *)
#[export] Instance MatEmpty_Gray : MatEmpty Gray := {|
  mat_empty := fun g =>
    match g with
    | [] | [] :: _ => true
    | _ => false
    end
|}.

Definition Point3 : Type := Q * Q * Q.

(** The tracked points of a templated frame at a level: one per column
    of the image row numbered by the level, and one that projects left
    of the image.  The projection drops the depth. *)
Definition demo_points (f : VisualOdometryFrame Gray Gray) (level : Z)
    : list Point3 :=
  match frame_state f with
  | FrameTemplated g _ =>
      map (fun c => (inject_Z (Z.of_nat c), inject_Z level, 1))
          (seq 0 (length (hd [] g)))
      ++ [(- (1), inject_Z level, 1)]
  | _ => []
  end.

#[export] Instance Template_Demo : TemplateAccess Q Gray Gray Point3 unit := {|
  templatePoints := demo_points;
  templateWarp := fun _ _ => tt;
  getImagePoint := fun _ p => let '(x, y, _) := p in (x, y)
|}.

Record Reply : Type := {
  reply_stats : list (OptimizerStatistics Q);
  reply_pose : Screw;
  reply_weights : list Q
}.

Record Scripted : Type := {
  script : list Reply;
  weights : list Q
}.

Definition scripted_estimatePose (e : Scripted)
    (ref cur : VisualOdometryFrame Gray Gray) (T_guess : Screw)
    : Scripted * list (OptimizerStatistics Q) * Screw :=
  match script e with
  | [] => (e, [], T_guess)
  | r :: rest =>
      ({| script := rest; weights := reply_weights r |},
       reply_stats r, reply_pose r)
  end.

(** The fraction of the weights above the threshold. *)
Definition scripted_fraction (e : Scripted) (threshold : Q) : Q :=
  inject_Z (Z.of_nat (length (filter (fun w => negb (Qle_bool w threshold))
                                     (weights e))))
  / inject_Z (Z.of_nat (length (weights e))).

(** The estimator that answers with [replies]. *)
Definition estimator (replies : list Reply)
    : PoseEstimator Q Screw Gray Gray Scripted := {|
  newEstimator := fun _ => {| script := replies; weights := [] |};
  estimatePose := scripted_estimatePose;
  getFractionOfGoodPoints := scripted_fraction;
  getWeights := weights
|}.

#[export] Instance Defaults_Demo : Defaults Q Screw Point3 := {|
  Result_new := {| success := false;
                   displacement := {| angle := 0; along := 0 |};
                   covariance := {| angle := 0; along := 0 |};
                   optimizerStatistics := [];
                   isKeyFrame := false;
                   keyFramingReason := kNoKeyFraming;
                   pointCloud := None |};
  OptimizerStatistics_new :=
    {| finalError := 0; numPixels := 0; status := kSolverOk |}
|}.

Definition params : AlgorithmParameters Q := {|
  numPyramidLevels := 3;
  minImageDimensionForPyramid := 40;
  maxTestLevel := 1;
  maxSolutionError := 10;
  minTranslationMagToKeyFrame := 2;
  minRotationMagToKeyFrame := 1;
  goodPointThreshold := 1 # 2;
  maxFractionOfGoodPointsToKeyFrame := 1 # 2
|}.

Definition good : OptimizerStatistics Q :=
  {| finalError := 8; numPixels := 4; status := kSolverOk |}.

Definition failed : OptimizerStatistics Q :=
  {| finalError := 8; numPixels := 4; status := kSolverError |}.

Definition costly : OptimizerStatistics Q :=
  {| finalError := 100; numPixels := 4; status := kSolverOk |}.

Definition image1 : Gray := [[10; 20]; [30; 40]]%Z.
Definition image2 : Gray := [[11; 21]; [31; 41]]%Z.
Definition image3 : Gray := [[12; 22]; [32; 42]]%Z.

Definition size22 : ImageSize := {| rows := 2; cols := 2 |}.

(** Replies: a small motion, a long one, a long turning one, and a
    rejected estimate. *)
Definition small : Reply :=
  {| reply_stats := [good; good; good];
     reply_pose := {| angle := 0; along := 1 |};
     reply_weights := [1; 1; 1] |}.

Definition long : Reply :=
  {| reply_stats := [good; good; good];
     reply_pose := {| angle := 0; along := 3 |};
     reply_weights := [1; 1; 1] |}.

Definition long_turn : Reply :=
  {| reply_stats := [good; good; good];
     reply_pose := {| angle := 2; along := 3 |};
     reply_weights := [1; 1; 1] |}.

Definition rejected : Reply :=
  {| reply_stats := [good; good; failed];
     reply_pose := {| angle := 0; along := 1 |};
     reply_weights := [1; 1; 1] |}.

Definition Object : Type := Impl Q Screw Gray Gray Scripted.

(** A fresh object whose estimator will answer with [replies]. *)
Definition fresh (replies : list Reply) : Object :=
  Impl_new (PE := estimator replies) (Matrix33 := unit) tt 1 size22 params.

(** One call, with the identity as guess. *)
Definition call (replies : list Reply) (img : Gray) (this : Object)
    : Run (Event Q Screw Gray Gray) Object (Result Q Screw Point3) :=
  addFrame (PE := estimator replies) (Warp := unit) img img Identity this.

(** The object a run leaves, or [this] when the run faulted. *)
Definition left_by {Ev St A} (r : Run Ev St A) (this : St) : St :=
  match outcome r with
  | inr (_, this') => this'
  | inl _ => this
  end.

(** The object after the first frame. *)
Definition after_first (replies : list Reply) : Object :=
  left_by (call replies image1 (fresh replies)) (fresh replies).

(** The object after the first frame and a second one. *)
Definition after_second (replies : list Reply) : Object :=
  left_by (call replies image2 (after_first replies)) (after_first replies).

End Demo.

(** ** A second instance: integer poses

    The same axial motions with an integer angle and an integer
    translation, which form a group under Leibniz equality, and an
    estimator that answers every call with three good levels and the seed
    moved one unit along the axis. *)

Module DemoZ.

Import Demo.

Record ZScrew : Set := { zangle : Z; zalong : Z }.

#[export] Instance Pose_ZScrew : Pose Q ZScrew := {|
  Identity := {| zangle := 0; zalong := 0 |};
  Mmul := fun a b =>
    {| zangle := zangle a + zangle b; zalong := zalong a + zalong b |};
  Minverse := fun a => {| zangle := - zangle a; zalong := - zalong a |};
  translationSquaredNorm := fun a => inject_Z (zalong a * zalong a);
  eulerAnglesSquaredNorm := fun a => inject_Z (zangle a * zangle a)
|}.

Definition steady : PoseEstimator Q ZScrew Demo.Gray Demo.Gray unit := {|
  newEstimator := fun _ => tt;
  estimatePose := fun e _ _ T_guess =>
    (e, [Demo.good; Demo.good; Demo.good],
     {| zangle := zangle T_guess; zalong := zalong T_guess + 1 |});
  getFractionOfGoodPoints := fun _ _ => 1%Q;
  getWeights := fun _ => [1%Q; 1%Q; 1%Q]
|}.

#[export] Instance Defaults_ZScrew : Defaults Q ZScrew Demo.Point3 := {|
  Result_new := {| success := false;
                   displacement := {| zangle := 0; zalong := 0 |};
                   covariance := {| zangle := 0; zalong := 0 |};
                   optimizerStatistics := [];
                   isKeyFrame := false;
                   keyFramingReason := kNoKeyFraming;
                   pointCloud := None |};
  OptimizerStatistics_new :=
    {| finalError := 0%Q; numPixels := 0%Q; status := kSolverOk |}
|}.

(** Parameters under which several unit steps stay below the keyframe
    thresholds. *)
Definition wide : AlgorithmParameters Q := {|
  numPyramidLevels := 3;
  minImageDimensionForPyramid := 40;
  maxTestLevel := 1;
  maxSolutionError := 10%Q;
  minTranslationMagToKeyFrame := 10%Q;
  minRotationMagToKeyFrame := 1%Q;
  goodPointThreshold := (1 # 2)%Q;
  maxFractionOfGoodPointsToKeyFrame := (1 # 2)%Q
|}.

(** Parameters with a negative test level. *)
Definition below_zero : AlgorithmParameters Q := {|
  numPyramidLevels := 3;
  minImageDimensionForPyramid := 40;
  maxTestLevel := -1;
  maxSolutionError := 10%Q;
  minTranslationMagToKeyFrame := 10%Q;
  minRotationMagToKeyFrame := 1%Q;
  goodPointThreshold := (1 # 2)%Q;
  maxFractionOfGoodPointsToKeyFrame := (1 # 2)%Q
|}.

Definition Object : Type := Impl Q ZScrew Demo.Gray Demo.Gray unit.

Definition fresh : Object :=
  Impl_new (PE := steady) (Matrix33 := unit) tt 1%Q Demo.size22 wide.

Definition call (img : Demo.Gray) (this : Object)
    : Run (Event Q ZScrew Demo.Gray Demo.Gray) Object
          (Result Q ZScrew Demo.Point3) :=
  addFrame (PE := steady) (Warp := unit) img img Identity this.


End DemoZ.

(** * Theorems *)

(** ** Vector indices *)

Lemma at_index_Some_bounds {A} (v : list A) (i : Z) (a : A) :
  at_index v i = Some a -> 0 <= i < Z.of_nat (length v).
Proof.
  unfold at_index. destruct (Z.ltb_spec i 0) as [Hneg | Hpos]; [discriminate |].
  intros Hnth. assert (Hlt : (Z.to_nat i < length v)%nat).
  { apply nth_error_Some. congruence. }
  lia.
Qed.

Lemma at_index_in_bounds {A} (v : list A) (i : Z) :
  0 <= i < Z.of_nat (length v) -> exists a, at_index v i = Some a.
Proof.
  intros Hi. unfold at_index.
  destruct (Z.ltb_spec i 0) as [Hneg | Hpos]; [lia |].
  destruct (nth_error v (Z.to_nat i)) as [a |] eqn:Hnth; [now exists a |].
  apply nth_error_None in Hnth. lia.
Qed.

Lemma at_index_None_iff {A} (v : list A) (i : Z) :
  at_index v i = None <-> ~ (0 <= i < Z.of_nat (length v)).
Proof.
  split.
  - intros Hnone Hi. destruct (at_index_in_bounds v Hi) as [a Ha]. congruence.
  - intros Hout. destruct (at_index v i) as [a |] eqn:Ha; [| reflexivity].
    apply at_index_Some_bounds in Ha. contradiction.
Qed.

Lemma down_range_In (hi lo i : Z) :
  In i (down_range hi lo) <-> lo <= i <= hi.
Proof.
  unfold down_range. rewrite in_map_iff. split.
  - intros [k [Hk Hin]]. apply in_seq in Hin. lia.
  - intros Hi. exists (Z.to_nat (hi - i)). split; [lia |].
    apply in_seq. lia.
Qed.

Lemma down_range_empty (hi lo : Z) : hi < lo -> down_range hi lo = [].
Proof.
  intros Hlt. unfold down_range.
  replace (Z.to_nat (hi - lo + 1)) with 0%nat by lia. reflexivity.
Qed.

(** ** The result validator *)

Section ValidatorFacts.

Context {num : Type} {SC : Scalar num}.
Local Abbreviation Stats := (OptimizerStatistics num).

Lemma bind_fault {A B} (m : Checked num A) (f : A -> Checked num B) (e : Fault) :
  verdict m = inl e ->
  CheckedMonad.bind m f = {| touched := touched m; verdict := inl e |}.
Proof. intros Hm. unfold CheckedMonad.bind. rewrite Hm. reflexivity. Qed.

Lemma bind_done {A B} (m : Checked num A) (f : A -> Checked num B) (a : A) :
  verdict m = inr a ->
  CheckedMonad.bind m f =
  {| touched := touched m ++ touched (f a); verdict := verdict (f a) |}.
Proof. intros Hm. unfold CheckedMonad.bind. rewrite Hm. reflexivity. Qed.

Lemma stats_at_in_bounds (stats : list Stats) (i : Z) (s : Stats) :
  at_index stats i = Some s ->
  stats_at stats i = {| touched := [ReadStat i]; verdict := inr s |}.
Proof.
  intros Hs. unfold stats_at, CheckedMonad.bind, CheckedMonad.note. simpl.
  rewrite Hs. reflexivity.
Qed.

Lemma stats_at_out_of_bounds (stats : list Stats) (i : Z) :
  at_index stats i = None ->
  stats_at stats i =
  {| touched := [ReadStat i]; verdict := inl (OutOfRange i (length stats)) |}.
Proof.
  intros Hs. unfold stats_at, CheckedMonad.bind, CheckedMonad.note. simpl.
  rewrite Hs. reflexivity.
Qed.

Lemma format_levels_reads (stats : list Stats) (idxs : list Z) :
  Forall (fun a => match a with ReadStat i => In i idxs | Divide _ _ => False end)
         (touched (format_levels stats idxs)).
Proof.
  induction idxs as [| i rest IH]; simpl; [constructor |].
  destruct (at_index stats i) as [s |] eqn:Hs.
  - rewrite (stats_at_in_bounds _ _ Hs). unfold CheckedMonad.bind. simpl.
    constructor; [now left |].
    eapply Forall_impl; [| exact IH]. intros [j | a b]; simpl; tauto.
  - rewrite (stats_at_out_of_bounds _ _ Hs). unfold CheckedMonad.bind. simpl.
    constructor; [now left | constructor].
Qed.

Lemma format_levels_done (stats : list Stats) (idxs : list Z) :
  (forall i, In i idxs -> 0 <= i < Z.of_nat (length stats)) ->
  verdict (format_levels stats idxs) = inr tt.
Proof.
  induction idxs as [| i rest IH]; simpl; intros Hall; [reflexivity |].
  destruct (at_index_in_bounds stats (Hall i (or_introl eq_refl))) as [s Hs].
  rewrite (stats_at_in_bounds _ _ Hs). unfold CheckedMonad.bind. simpl.
  apply IH. intros j Hj. apply Hall. now right.
Qed.

Lemma format_levels_fault (stats : list Stats) (idxs : list Z) (i : Z) :
  In i idxs -> at_index stats i = None ->
  exists e, verdict (format_levels stats idxs) = inl e.
Proof.
  induction idxs as [| j rest IH]; simpl; intros Hin Hnone; [contradiction |].
  destruct (at_index stats j) as [s |] eqn:Hs.
  - rewrite (stats_at_in_bounds _ _ Hs). unfold CheckedMonad.bind. simpl.
    destruct Hin as [-> | Hin]; [congruence |].
    destruct (IH Hin Hnone) as [e He]. rewrite He.
    destruct (verdict (format_levels stats rest)); eauto.
  - rewrite (stats_at_out_of_bounds _ _ Hs). unfold CheckedMonad.bind. simpl.
    eauto.
Qed.

Lemma scan_status_reads (stats : list Stats) (idxs : list Z) :
  Forall (fun a => match a with ReadStat i => In i idxs | Divide _ _ => False end)
         (touched (scan_status stats idxs)).
Proof.
  induction idxs as [| i rest IH]; simpl; [constructor |].
  destruct (at_index stats i) as [s |] eqn:Hs.
  - rewrite (stats_at_in_bounds _ _ Hs). unfold CheckedMonad.bind. simpl.
    constructor; [now left |].
    destruct (is_kSolverError (status s)); simpl; [constructor |].
    eapply Forall_impl; [| exact IH]. intros [j | a b]; simpl; tauto.
  - rewrite (stats_at_out_of_bounds _ _ Hs). unfold CheckedMonad.bind. simpl.
    constructor; [now left | constructor].
Qed.

Lemma scan_status_done (stats : list Stats) (idxs : list Z) :
  (forall i, In i idxs -> 0 <= i < Z.of_nat (length stats)) ->
  exists b, verdict (scan_status stats idxs) = inr b /\
    (b = true <->
     forall i s, In i idxs -> at_index stats i = Some s ->
                 status s <> kSolverError).
Proof.
  induction idxs as [| i rest IH]; simpl; intros Hall.
  - exists true. split; [reflexivity |]. split; [contradiction | reflexivity].
  - destruct (at_index_in_bounds stats (Hall i (or_introl eq_refl))) as [s Hs].
    rewrite (stats_at_in_bounds _ _ Hs). unfold CheckedMonad.bind. simpl.
    destruct (status s) eqn:Hst; simpl.
    + destruct IH as [b [Hb Hiff]]; [intros j Hj; apply Hall; now right |].
      exists b. split; [exact Hb |]. rewrite Hiff. split.
      * intros Hrest j t [<- | Hj] Hat; [congruence | eauto].
      * intros Hcons j t Hj. apply Hcons. now right.
    + exists false. split; [reflexivity |]. split; [discriminate |].
      intros Hcons. exfalso. exact (Hcons i s (or_introl eq_refl) Hs Hst).
Qed.

Lemma format_levels_agree (stats stats' : list Stats) (idxs : list Z) :
  length stats' = length stats ->
  (forall i, In i idxs -> at_index stats' i = at_index stats i) ->
  format_levels stats' idxs = format_levels stats idxs.
Proof.
  intros Hlen. induction idxs as [| i rest IH]; simpl; intros Hall;
    [reflexivity |].
  unfold stats_at. rewrite Hlen, (Hall i (or_introl eq_refl)), IH;
    [reflexivity |].
  intros j Hj. apply Hall. now right.
Qed.

Lemma scan_status_agree (stats stats' : list Stats) (idxs : list Z) :
  length stats' = length stats ->
  (forall i, In i idxs -> at_index stats' i = at_index stats i) ->
  scan_status stats' idxs = scan_status stats idxs.
Proof.
  intros Hlen. induction idxs as [| i rest IH]; simpl; intros Hall;
    [reflexivity |].
  unfold stats_at. rewrite Hlen, (Hall i (or_introl eq_refl)), IH;
    [reflexivity |].
  intros j Hj. apply Hall. now right.
Qed.

(** The run of [checkResult] when [stats[maxTestLevel]] exists. *)
Lemma checkResult_in_bounds (p : AlgorithmParameters num) (stats : list Stats)
    (fin : Stats) :
  at_index stats (maxTestLevel p) = Some fin ->
  let levels := down_range (Z.of_nat (length stats) - 1) (maxTestLevel p) in
  let exceeded := Ngtb (Ndiv (finalError fin) (numPixels fin))
                       (maxSolutionError p) in
  checkResult p stats =
  {| touched := touched (format_levels stats levels)
                ++ ReadStat (maxTestLevel p)
                   :: Divide (finalError fin) (numPixels fin)
                   :: (if exceeded then []
                       else touched (scan_status stats levels));
     verdict := if exceeded then inr false
                else verdict (scan_status stats levels) |}.
Proof.
  intros Hfin levels exceeded. unfold checkResult. fold levels.
  assert (Hdone : verdict (format_levels stats levels) = inr tt).
  { apply format_levels_done. intros i Hi. apply down_range_In in Hi.
    apply at_index_Some_bounds in Hfin. clear - Hi Hfin. lia. }
  rewrite (bind_done _ _ Hdone), (stats_at_in_bounds _ _ Hfin).
  unfold CheckedMonad.bind, divide, CheckedMonad.note, CheckedMonad.ret. simpl.
  fold exceeded. destruct exceeded; reflexivity.
Qed.

(** The run of [checkResult] when [stats[maxTestLevel]] does not exist. *)
Lemma checkResult_out_of_bounds (p : AlgorithmParameters num)
    (stats : list Stats) :
  at_index stats (maxTestLevel p) = None ->
  let levels := down_range (Z.of_nat (length stats) - 1) (maxTestLevel p) in
  (exists e, verdict (checkResult p stats) = inl e) /\
  (touched (checkResult p stats) = touched (format_levels stats levels) \/
   touched (checkResult p stats) =
   touched (format_levels stats levels) ++ [ReadStat (maxTestLevel p)]).
Proof.
  intros Hnone levels. unfold checkResult. fold levels.
  destruct (verdict (format_levels stats levels)) as [e | []] eqn:Hv.
  - rewrite (bind_fault _ _ Hv). simpl. split; [eauto | now left].
  - rewrite (bind_done _ _ Hv), (stats_at_out_of_bounds _ _ Hnone).
    unfold CheckedMonad.bind. simpl. split; [eauto | now right].
Qed.

Lemma reads_within_app (P : Z -> Prop) (l1 l2 : list (Access num)) :
  reads_within P l1 -> reads_within P l2 -> reads_within P (l1 ++ l2).
Proof. intros H1 H2. apply Forall_app. now split. Qed.

Lemma levels_reads (P : Z -> Prop) (hi lo : Z) (l : list (Access num)) :
  (forall i, lo <= i <= hi -> P i) ->
  Forall (fun a => match a with
                   | ReadStat i => In i (down_range hi lo)
                   | Divide _ _ => False
                   end) l ->
  reads_within P l.
Proof.
  intros HP. apply Forall_impl. intros [i | a b]; [| contradiction].
  intros Hi. apply HP. now apply down_range_In.
Qed.

Lemma levels_divisors (P : num -> Prop) (idxs : list Z) (l : list (Access num)) :
  Forall (fun a => match a with
                   | ReadStat i => In i idxs
                   | Divide _ _ => False
                   end) l ->
  divisors_within P l.
Proof.
  apply Forall_impl. intros [i | a b]; [intros _; exact Logic.I | contradiction].
Qed.

(** C5. [checkResult] returns true if and only if the ratio
    [stats[maxTestLevel].finalError / stats[maxTestLevel].numPixels] does
    not exceed [maxSolutionError] and no level from the last index down
    to [maxTestLevel] has solver-error status; it reads no level below
    [maxTestLevel], so its run is the same on two vectors of one size
    that agree from [maxTestLevel] on. *)
Theorem checkResult_accepts_iff (p : AlgorithmParameters num)
    (stats : list Stats) :
  (verdict (checkResult p stats) = inr true <->
   exists fin,
     at_index stats (maxTestLevel p) = Some fin /\
     Ngtb (Ndiv (finalError fin) (numPixels fin)) (maxSolutionError p) = false /\
     forall i s, maxTestLevel p <= i <= Z.of_nat (length stats) - 1 ->
                 at_index stats i = Some s -> status s <> kSolverError) /\
  reads_within (fun i => maxTestLevel p <= i) (touched (checkResult p stats)) /\
  forall stats',
    length stats' = length stats ->
    (forall i, maxTestLevel p <= i -> at_index stats' i = at_index stats i) ->
    checkResult p stats' = checkResult p stats.
Proof.
  split; [| split].
  - destruct (at_index stats (maxTestLevel p)) as [fin |] eqn:Hfin.
    + rewrite (checkResult_in_bounds _ _ Hfin). simpl.
      destruct (Ngtb (Ndiv (finalError fin) (numPixels fin))
                     (maxSolutionError p)) eqn:Hex.
      * split; [discriminate |].
        intros [fin' [Heq [Hok _]]]. injection Heq as <-. congruence.
      * destruct (@scan_status_done stats
                    (down_range (Z.of_nat (length stats) - 1) (maxTestLevel p)))
          as [b [Hb Hiff]].
        { intros i Hi. apply down_range_In in Hi.
          apply at_index_Some_bounds in Hfin. lia. }
        rewrite Hb. split.
        -- intros Htrue. injection Htrue as ->. exists fin.
           split; [reflexivity |]. split; [exact Hex |].
           intros i s Hi. apply (proj1 Hiff eq_refl). now apply down_range_In.
        -- intros [fin' [_ [_ Hall]]]. f_equal. apply Hiff.
           intros i s Hi. apply Hall. now apply down_range_In.
    + destruct (checkResult_out_of_bounds p stats Hfin) as [[e He] _].
      rewrite He. split; [discriminate |].
      intros [fin [Heq _]]. discriminate.
  - destruct (at_index stats (maxTestLevel p)) as [fin |] eqn:Hfin.
    + rewrite (checkResult_in_bounds _ _ Hfin). simpl.
      apply reads_within_app.
      * eapply levels_reads; [| apply format_levels_reads]. intros i Hi. lia.
      * constructor; [simpl; lia |]. constructor; [exact Logic.I |].
        destruct (Ngtb _ _); [constructor |].
        eapply levels_reads; [| apply scan_status_reads]. intros i Hi. lia.
    + assert (Hfmt : reads_within (fun i => maxTestLevel p <= i)
                (touched (format_levels stats
                   (down_range (Z.of_nat (length stats) - 1) (maxTestLevel p))))).
      { eapply levels_reads; [| apply format_levels_reads]. intros i Hi. lia. }
      destruct (checkResult_out_of_bounds p stats Hfin) as [_ [-> | ->]];
        [exact Hfmt |].
      apply reads_within_app; [exact Hfmt |].
      constructor; [simpl; lia | constructor].
  - intros stats' Hlen Hagree. unfold checkResult, stats_at.
    rewrite Hlen, (Hagree (maxTestLevel p) (Z.le_refl _)).
    rewrite (@format_levels_agree stats stats'), (@scan_status_agree stats stats');
      try assumption; try reflexivity;
      intros i Hi; apply Hagree; apply down_range_In in Hi; lia.
Qed.

(** C10. [checkResult] reads the statistics only at indices from
    [maxTestLevel] up to the last one, and at [maxTestLevel] itself; it
    divides [stats[maxTestLevel].finalError] by
    [stats[maxTestLevel].numPixels] whenever that level exists, whatever
    the divisor.  When [0 <= maxTestLevel < stats.size()] and the divisor
    is not zero, every read is in bounds, no division has a zero divisor
    and the run ends with a boolean.  When [stats.size() <= maxTestLevel]
    the only read is [stats[maxTestLevel]], which is out of range. *)
Theorem checkResult_accesses (p : AlgorithmParameters num) (stats : list Stats) :
  let size := Z.of_nat (length stats) in
  let run := checkResult p stats in
  reads_within (fun i => maxTestLevel p <= i /\
                         (i <= size - 1 \/ i = maxTestLevel p)) (touched run) /\
  (forall fin, at_index stats (maxTestLevel p) = Some fin ->
     In (Divide (finalError fin) (numPixels fin)) (touched run)) /\
  (forall fin,
     0 <= maxTestLevel p < size ->
     at_index stats (maxTestLevel p) = Some fin ->
     numPixels fin <> N_of_Z 0 ->
     reads_within (fun i => maxTestLevel p <= i <= size - 1 /\ 0 <= i < size)
                  (touched run) /\
     divisors_within (fun b => b <> N_of_Z 0) (touched run) /\
     exists b, verdict run = inr b) /\
  (size <= maxTestLevel p ->
     touched run = [ReadStat (maxTestLevel p)] /\
     verdict run = inl (OutOfRange (maxTestLevel p) (length stats)) /\
     at_index stats (maxTestLevel p) = None).
Proof.
  intros size run. subst run.
  assert (Hlevels : forall (P : Z -> Prop),
             (forall i, maxTestLevel p <= i <= size - 1 -> P i) ->
             reads_within P (touched (format_levels stats
                (down_range (size - 1) (maxTestLevel p)))) /\
             reads_within P (touched (scan_status stats
                (down_range (size - 1) (maxTestLevel p))))).
  { intros P HP. split; eapply levels_reads; try exact HP;
      [apply format_levels_reads | apply scan_status_reads]. }
  split; [| split; [| split]].
  - destruct (Hlevels (fun i => maxTestLevel p <= i /\
                (i <= size - 1 \/ i = maxTestLevel p))) as [Hfmt Hscan];
      [intros i Hi; lia |].
    destruct (at_index stats (maxTestLevel p)) as [fin |] eqn:Hfin.
    + rewrite (checkResult_in_bounds _ _ Hfin). simpl.
      apply reads_within_app; [exact Hfmt |].
      constructor; [simpl; lia |]. constructor; [exact Logic.I |].
      destruct (Ngtb _ _); [constructor | exact Hscan].
    + destruct (checkResult_out_of_bounds p stats Hfin) as [_ [-> | ->]];
        [exact Hfmt |].
      apply reads_within_app; [exact Hfmt |].
      constructor; [simpl; lia | constructor].
  - intros fin Hfin. rewrite (checkResult_in_bounds _ _ Hfin). simpl.
    apply in_or_app. right. right. now left.
  - intros fin Hmtl Hfin Hnz.
    destruct (Hlevels (fun i => maxTestLevel p <= i <= size - 1 /\
                0 <= i < size)) as [Hfmt Hscan]; [intros i Hi; lia |].
    rewrite (checkResult_in_bounds _ _ Hfin). simpl. split; [| split].
    + apply reads_within_app; [exact Hfmt |].
      constructor; [simpl; lia |]. constructor; [exact Logic.I |].
      destruct (Ngtb _ _); [constructor | exact Hscan].
    + apply Forall_app. split.
      * eapply levels_divisors. apply (format_levels_reads stats).
      * constructor; [exact Logic.I |]. constructor; [exact Hnz |].
        destruct (Ngtb _ _); [constructor |].
        eapply levels_divisors. apply (scan_status_reads stats).
    + destruct (Ngtb _ _); [now exists false |].
      destruct (@scan_status_done stats
                  (down_range (size - 1) (maxTestLevel p))) as [b [Hb _]];
        [| now exists b].
      intros i Hi. apply down_range_In in Hi. lia.
  - intros Hshort.
    assert (Hnone : at_index stats (maxTestLevel p) = None).
    { apply at_index_None_iff. fold size. lia. }
    unfold checkResult. fold size.
    rewrite (down_range_empty (hi := size - 1) (lo := maxTestLevel p))
      by lia.
    simpl. rewrite (stats_at_out_of_bounds _ _ Hnone).
    unfold CheckedMonad.bind. simpl. auto.
Qed.

End ValidatorFacts.

(** ** Runs of methods *)

Section MethodFacts.

Context {Ev St : Type}.
Import MethodMonad.

Lemma Run_ext {A} (r1 r2 : Run Ev St A) :
  events r1 = events r2 -> outcome r1 = outcome r2 -> r1 = r2.
Proof. destruct r1, r2. simpl. intros -> ->. reflexivity. Qed.

Lemma bind_modify {B} (f : St -> St) (k : unit -> M Ev St B) (this : St) :
  bind (modify f) k this = k tt (f this).
Proof. apply Run_ext; reflexivity. Qed.

Lemma bind_get {B} (k : St -> M Ev St B) (this : St) :
  bind get k this = k this this.
Proof. apply Run_ext; reflexivity. Qed.

Lemma bind_ret {A B} (a : A) (k : A -> M Ev St B) (this : St) :
  bind (ret a) k this = k a this.
Proof. apply Run_ext; reflexivity. Qed.

Lemma bind_emit {B} (e : Ev) (k : unit -> M Ev St B) (this : St) :
  bind (emit e) k this = after e (k tt this).
Proof. apply Run_ext; reflexivity. Qed.

Lemma bind_lift_done {A B} (a : A) (k : A -> M Ev St B) (this : St) :
  bind (lift (inr a)) k this = k a this.
Proof. apply Run_ext; reflexivity. Qed.

Lemma bind_lift_fault {A B} (f : Fault) (k : A -> M Ev St B) (this : St) :
  bind (lift (inl f)) k this = {| events := []; outcome := inl f |}.
Proof. apply Run_ext; reflexivity. Qed.

Lemma bind_assoc {A B C} (m : M Ev St A) (f : A -> M Ev St B)
    (g : B -> M Ev St C) (this : St) :
  bind (bind m f) g this = bind m (fun a => bind (f a) g) this.
Proof.
  unfold bind. destruct (outcome (m this)) as [e | [a this']]; simpl;
    [reflexivity |].
  destruct (outcome (f a this')) as [e | [b this'']]; simpl;
    [reflexivity |].
  now rewrite app_assoc.
Qed.

End MethodFacts.

(** ** The frame state machine *)

Section AddFrameFacts.

Context {num Matrix44 Matrix33 Image Disparity Point Warp Est : Type}.
Context {SC : Scalar num} {PO : Pose num Matrix44} {RA : Raster Image}.
Context {TA : TemplateAccess num Image Disparity Point Warp}.
Context {PE : PoseEstimator num Matrix44 Image Disparity Est}.
Context {DF : Defaults num Matrix44 Point}.

Local Abbreviation Frame := (VisualOdometryFrame Image Disparity).
Local Abbreviation This := (Impl num Matrix44 Image Disparity Est).
Local Abbreviation Stats := (OptimizerStatistics num).
Local Abbreviation Res := (Result num Matrix44 Point).
Local Abbreviation Ev := (Event num Matrix44 Image Disparity).
Import MethodMonad.

Lemma bind_this_estimatePose {B} (T_guess : Matrix44)
    (k : list Stats * Matrix44 -> M Ev This B) (this : This) :
  let est := estimatePose (_vo_pose this) (_ref_frame this) (_cur_frame this)
                          T_guess in
  bind (this_estimatePose T_guess) k this =
  after (EvEstimatePose (_ref_frame this) (_cur_frame this) T_guess)
        (k (snd (fst est), snd est) (set_vo_pose this (fst (fst est)))).
Proof. apply Run_ext; reflexivity. Qed.

Lemma bind_this_checkResult {B} (stats : list Stats)
    (k : bool -> M Ev This B) (this : This) (ok : bool) :
  verdict (checkResult (_params this) stats) = inr ok ->
  bind (this_checkResult stats) k this = after (EvCheckResult stats) (k ok this).
Proof.
  intros Hok. unfold this_checkResult.
  rewrite bind_assoc, bind_get, bind_assoc, bind_emit, Hok, bind_lift_done.
  reflexivity.
Qed.

Lemma bind_this_checkResult_fault {B} (stats : list Stats)
    (k : bool -> M Ev This B) (this : This) (f : Fault) :
  verdict (checkResult (_params this) stats) = inl f ->
  bind (this_checkResult stats) k this =
  {| events := [EvCheckResult stats]; outcome := inl f |}.
Proof.
  intros Hf. unfold this_checkResult.
  rewrite bind_assoc, bind_get, bind_assoc, bind_emit, Hf, bind_lift_fault.
  reflexivity.
Qed.

Lemma bind_this_shouldKeyFrame {B} (pose : Matrix44)
    (k : KeyFramingReason -> M Ev This B) (this : This) :
  bind (this_shouldKeyFrame pose) k this =
  after (EvShouldKeyFrame pose) (k (shouldKeyFrame this pose) this).
Proof. apply Run_ext; reflexivity. Qed.

Lemma bind_this_getPointCloudFromRefFrame {B}
    (k : option (PointCloud num Point) -> M Ev This B) (this : This)
    (cloud : option (PointCloud num Point)) :
  getPointCloudFromRefFrame (Warp := Warp) this = inr cloud ->
  bind (this_getPointCloudFromRefFrame (Warp := Warp)) k this =
  after EvGetPointCloud (k cloud this).
Proof.
  intros Hc. unfold this_getPointCloudFromRefFrame.
  rewrite bind_assoc, bind_get, bind_assoc, bind_emit, Hc, bind_lift_done.
  reflexivity.
Qed.

(** The const methods read [_params], [_vo_pose] and [_ref_frame] only. *)
Lemma shouldKeyFrame_reads (a b : This) (pose : Matrix44) :
  _params a = _params b -> _vo_pose a = _vo_pose b ->
  shouldKeyFrame a pose = shouldKeyFrame b pose.
Proof. intros Hp He. unfold shouldKeyFrame. now rewrite Hp, He. Qed.

Lemma getPointCloudFromRefFrame_reads (a b : This) :
  _params a = _params b -> _vo_pose a = _vo_pose b ->
  _ref_frame a = _ref_frame b ->
  getPointCloudFromRefFrame (Warp := Warp) a =
  getPointCloudFromRefFrame (Warp := Warp) b.
Proof.
  intros Hp He Hr. unfold getPointCloudFromRefFrame, pointsAtLevel.
  now rewrite Hp, He, Hr.
Qed.

Lemma hasTemplate_imagePointer (f : Frame) :
  hasTemplate f = true -> exists image, imagePointer f = Some image.
Proof.
  unfold hasTemplate, imagePointer.
  destruct (frame_state f) as [| img dis | img dis]; try discriminate.
  intros _. now exists img.
Qed.

(** With a templated reference the extractor does not fault. *)
Lemma getPointCloudFromRefFrame_done (this : This) :
  hasTemplate (_ref_frame this) = true ->
  exists cloud, getPointCloudFromRefFrame (Warp := Warp) this = inr cloud.
Proof.
  intros Href. destruct (hasTemplate_imagePointer _ Href) as [image Himg].
  unfold getPointCloudFromRefFrame. rewrite Himg.
  destruct (negb _); eauto.
Qed.

Ltac fields :=
  cbn [_params _image_size _vo_pose _ref_frame _cur_frame _prev_frame _T_kf
       _trajectory set_params set_vo_pose set_ref_frame set_cur_frame
       set_prev_frame set_T_kf set_trajectory swap_ref_cur swap_prev_cur
       swap_prev_ref
       success displacement covariance optimizerStatistics isKeyFrame
       keyFramingReason pointCloud set_success set_displacement
       set_covariance set_optimizerStatistics set_isKeyFrame
       set_keyFramingReason set_pointCloud
       fst snd negb].

Ltac decide_as H :=
  match type of H with
  | context [shouldKeyFrame ?st _] =>
      erewrite shouldKeyFrame_reads with (b := st); [| reflexivity | reflexivity]
  end.

(** The run of the bootstrap path: the reference has no template. *)
Lemma addFrame_bootstrap_run (this : This) (img : Image) (dis : Disparity)
    (guess : Matrix44) :
  hasTemplate (_ref_frame this) = false ->
  addFrame (Warp := Warp) img dis guess this =
  {| events := [];
     outcome := inr
       (FirstFrameResult (numLevels (_cur_frame this)),
        {| _params := _params this;
           _image_size := _image_size this;
           _vo_pose := _vo_pose this;
           _ref_frame := setTemplate (fed this img dis);
           _cur_frame := _ref_frame this;
           _prev_frame := _prev_frame this;
           _T_kf := _T_kf this;
           _trajectory := _trajectory this ++ [_T_kf this] |}) |}.
Proof.
  intros Href. unfold addFrame. rewrite bind_modify, bind_get. fields.
  rewrite Href. fields.
  rewrite !bind_modify, bind_get. reflexivity.
Qed.

(** The run up to the reason of the primary estimate, when the validator
    faults. *)
Lemma addFrame_primary_fault (this : This) (img : Image) (dis : Disparity)
    (guess : Matrix44) (f : Fault) :
  hasTemplate (_ref_frame this) = true ->
  verdict (checkResult (_params this)
             (snd (fst (primary this img dis guess)))) = inl f ->
  addFrame (Warp := Warp) img dis guess this =
  {| events := [EvEstimatePose (_ref_frame this) (fed this img dis)
                               (Mmul (_T_kf this) guess);
                EvCheckResult (snd (fst (primary this img dis guess)))];
     outcome := inl f |}.
Proof.
  intros Href Hf. unfold primary, fed in *. unfold addFrame.
  rewrite bind_modify, bind_get. fields.
  rewrite Href. fields. rewrite bind_this_estimatePose. fields.
  erewrite bind_this_checkResult_fault; [reflexivity | exact Hf].
Qed.

(** The run of the tracking path: the primary estimate is accepted and
    no keyframe is asked for. *)
Lemma addFrame_tracking_run (this : This) (img : Image) (dis : Disparity)
    (guess : Matrix44) :
  hasTemplate (_ref_frame this) = true ->
  let est := primary this img dis guess in
  verdict (checkResult (_params this) (snd (fst est))) = inr true ->
  shouldKeyFrame (set_vo_pose this (fst (fst est))) (snd est) = kNoKeyFraming ->
  addFrame (Warp := Warp) img dis guess this =
  {| events := [EvEstimatePose (_ref_frame this) (fed this img dis)
                               (Mmul (_T_kf this) guess);
                EvCheckResult (snd (fst est));
                EvShouldKeyFrame (snd est)];
     outcome := inr
       ({| success := true;
           displacement := Mmul (snd est) (Minverse (_T_kf this));
           covariance := covariance Result_new;
           optimizerStatistics := snd (fst est);
           isKeyFrame := false;
           keyFramingReason := kNoKeyFraming;
           pointCloud := pointCloud Result_new |},
        {| _params := _params this;
           _image_size := _image_size this;
           _vo_pose := fst (fst est);
           _ref_frame := _ref_frame this;
           _cur_frame := _prev_frame this;
           _prev_frame := fed this img dis;
           _T_kf := snd est;
           _trajectory := _trajectory this |}) |}.
Proof.
  intros Href est Hok Hdec. subst est. unfold primary, fed in *.
  unfold addFrame. rewrite bind_modify, bind_get. fields.
  rewrite Href. fields. rewrite bind_this_estimatePose. fields.
  erewrite bind_this_checkResult; [| exact Hok]. fields.
  rewrite bind_this_shouldKeyFrame. decide_as Hdec.
  rewrite Hdec. cbn [KeyFramingReason_eqb]. fields.
  rewrite bind_modify, bind_get, bind_modify. reflexivity.
Qed.

Ltac extract_cloud H :=
  erewrite bind_this_getPointCloudFromRefFrame;
  [| erewrite getPointCloudFromRefFrame_reads; [exact H | | |]; reflexivity].

(** The run of the keyframe path without a previous candidate.  [ok] is
    the verdict of the validator on the primary estimate and [k] the
    reason it leads to. *)
Lemma addFrame_starved_run (this : This) (img : Image) (dis : Disparity)
    (guess : Matrix44) (ok : bool) (cloud : option (PointCloud num Point)) :
  hasTemplate (_ref_frame this) = true ->
  let est := primary this img dis guess in
  let k := if ok then shouldKeyFrame (set_vo_pose this (fst (fst est))) (snd est)
           else kEstimationFailed in
  verdict (checkResult (_params this) (snd (fst est))) = inr ok ->
  k <> kNoKeyFraming ->
  getPointCloudFromRefFrame (Warp := Warp) (set_vo_pose this (fst (fst est)))
    = inr cloud ->
  empty (_prev_frame this) = true ->
  addFrame (Warp := Warp) img dis guess this =
  {| events := EvEstimatePose (_ref_frame this) (fed this img dis)
                              (Mmul (_T_kf this) guess)
               :: EvCheckResult (snd (fst est))
               :: (if ok then [EvShouldKeyFrame (snd est)] else [])
               ++ [EvGetPointCloud];
     outcome := inr
       ({| success := false;
           displacement := displacement Result_new;
           covariance := covariance Result_new;
           optimizerStatistics := snd (fst est);
           isKeyFrame := true;
           keyFramingReason := k;
           pointCloud := cloud |},
        {| _params := _params this;
           _image_size := _image_size this;
           _vo_pose := fst (fst est);
           _ref_frame := setTemplate (fed this img dis);
           _cur_frame := _ref_frame this;
           _prev_frame := _prev_frame this;
           _T_kf := Identity;
           _trajectory := _trajectory this |}) |}.
Proof.
  intros Href est k Hok Hk Hcloud Hprev.
  assert (Hkey : KeyFramingReason_eqb kNoKeyFraming k = false)
    by (destruct k; try reflexivity; congruence).
  clear Hk. subst k est. unfold primary, fed in *.
  unfold addFrame. rewrite bind_modify, bind_get. fields.
  rewrite Href. fields. rewrite bind_this_estimatePose. fields.
  erewrite bind_this_checkResult; [| exact Hok]. fields.
  destruct ok; fields.
  - rewrite bind_this_shouldKeyFrame. decide_as Hkey.
    rewrite Hkey. fields. rewrite bind_modify.
    extract_cloud Hcloud.
    rewrite bind_get. fields. rewrite Hprev, !bind_modify. reflexivity.
  - rewrite bind_ret. cbn [KeyFramingReason_eqb]. fields. rewrite bind_modify.
    extract_cloud Hcloud.
    rewrite bind_get. fields. rewrite Hprev, !bind_modify. reflexivity.
Qed.

(** The run of the keyframe path with a previous candidate.  [ok] and
    [ok2] are the verdicts of the validator on the primary and on the
    backup estimate, [k] and [k2] the reasons they lead to. *)
Lemma addFrame_backup_run (this : This) (img : Image) (dis : Disparity)
    (guess : Matrix44) (ok ok2 : bool)
    (cloud : option (PointCloud num Point)) :
  hasTemplate (_ref_frame this) = true ->
  let est := primary this img dis guess in
  let est2 := backup this img dis guess in
  let k := if ok then shouldKeyFrame (set_vo_pose this (fst (fst est))) (snd est)
           else kEstimationFailed in
  let k2 := if ok2
            then shouldKeyFrame (set_vo_pose this (fst (fst est2))) (snd est2)
            else kEstimationFailed in
  verdict (checkResult (_params this) (snd (fst est))) = inr ok ->
  k <> kNoKeyFraming ->
  getPointCloudFromRefFrame (Warp := Warp) (set_vo_pose this (fst (fst est)))
    = inr cloud ->
  empty (_prev_frame this) = false ->
  verdict (checkResult (_params this) (snd (fst est2))) = inr ok2 ->
  addFrame (Warp := Warp) img dis guess this =
  {| events := EvEstimatePose (_ref_frame this) (fed this img dis)
                              (Mmul (_T_kf this) guess)
               :: EvCheckResult (snd (fst est))
               :: (if ok then [EvShouldKeyFrame (snd est)] else [])
               ++ [EvGetPointCloud;
                   EvEstimatePose (setTemplate (_prev_frame this))
                                  (fed this img dis) guess;
                   EvCheckResult (snd (fst est2))]
               ++ (if ok2 then [EvShouldKeyFrame (snd est2)] else []);
     outcome := inr
       ({| success := KeyFramingReason_eqb k2 kNoKeyFraming;
           displacement := snd est2;
           covariance := covariance Result_new;
           optimizerStatistics := snd (fst est2);
           isKeyFrame := true;
           keyFramingReason := k2;
           pointCloud := cloud |},
        {| _params := _params this;
           _image_size := _image_size this;
           _vo_pose := fst (fst est2);
           _ref_frame := setTemplate (_prev_frame this);
           _cur_frame := fed this img dis;
           _prev_frame := clear (_ref_frame this);
           _T_kf := snd est2;
           _trajectory := _trajectory this |}) |}.
Proof.
  intros Href est est2 k k2 Hok Hk Hcloud Hprev Hok2.
  assert (Hkey : KeyFramingReason_eqb kNoKeyFraming k = false)
    by (destruct k; try reflexivity; congruence).
  clear Hk. pose proof (eq_refl k2) as Hk2. unfold k2 at 2 in Hk2.
  clearbody k2. subst k est est2. unfold backup, primary, fed in *.
  unfold addFrame. rewrite bind_modify, bind_get. fields.
  rewrite Href. fields. rewrite bind_this_estimatePose. fields.
  erewrite bind_this_checkResult; [| exact Hok]. fields.
  destruct ok; fields;
    [rewrite bind_this_shouldKeyFrame; decide_as Hkey; rewrite Hkey
    | rewrite bind_ret; cbn [KeyFramingReason_eqb]];
    fields; rewrite bind_modify; extract_cloud Hcloud;
    rewrite bind_get; fields; rewrite Hprev, !bind_modify;
    rewrite bind_this_estimatePose; fields; rewrite bind_modify;
    (erewrite bind_this_checkResult; [| exact Hok2]); fields;
    (destruct ok2; fields;
     [rewrite bind_this_shouldKeyFrame; decide_as Hk2; rewrite <- Hk2
     | rewrite bind_ret; subst k2]);
    first [destruct k2; reflexivity | reflexivity].
Qed.

(** The keyframe path with a previous candidate, when the validator
    faults on the backup estimate. *)
Lemma addFrame_backup_fault (this : This) (img : Image) (dis : Disparity)
    (guess : Matrix44) (ok : bool) (f : Fault)
    (cloud : option (PointCloud num Point)) :
  hasTemplate (_ref_frame this) = true ->
  let est := primary this img dis guess in
  let est2 := backup this img dis guess in
  let k := if ok then shouldKeyFrame (set_vo_pose this (fst (fst est))) (snd est)
           else kEstimationFailed in
  verdict (checkResult (_params this) (snd (fst est))) = inr ok ->
  k <> kNoKeyFraming ->
  getPointCloudFromRefFrame (Warp := Warp) (set_vo_pose this (fst (fst est)))
    = inr cloud ->
  empty (_prev_frame this) = false ->
  verdict (checkResult (_params this) (snd (fst est2))) = inl f ->
  addFrame (Warp := Warp) img dis guess this =
  {| events := EvEstimatePose (_ref_frame this) (fed this img dis)
                              (Mmul (_T_kf this) guess)
               :: EvCheckResult (snd (fst est))
               :: (if ok then [EvShouldKeyFrame (snd est)] else [])
               ++ [EvGetPointCloud;
                   EvEstimatePose (setTemplate (_prev_frame this))
                                  (fed this img dis) guess;
                   EvCheckResult (snd (fst est2))];
     outcome := inl f |}.
Proof.
  intros Href est est2 k Hok Hk Hcloud Hprev Hf.
  assert (Hkey : KeyFramingReason_eqb kNoKeyFraming k = false)
    by (destruct k; try reflexivity; congruence).
  clear Hk. subst k est est2. unfold backup, primary, fed in *.
  unfold addFrame. rewrite bind_modify, bind_get. fields.
  rewrite Href. fields. rewrite bind_this_estimatePose. fields.
  erewrite bind_this_checkResult; [| exact Hok]. fields.
  destruct ok; fields;
    [rewrite bind_this_shouldKeyFrame; decide_as Hkey; rewrite Hkey
    | rewrite bind_ret; cbn [KeyFramingReason_eqb]];
    fields; rewrite bind_modify; extract_cloud Hcloud;
    rewrite bind_get; fields; rewrite Hprev, !bind_modify;
    rewrite bind_this_estimatePose; fields; rewrite bind_modify;
    (erewrite bind_this_checkResult_fault; [| exact Hf]); reflexivity.
Qed.

(** *** Frames *)

Lemma hasTemplate_setTemplate (f : Frame) :
  empty f = false -> hasTemplate (setTemplate f) = true.
Proof.
  unfold empty, hasTemplate, setTemplate.
  destruct (frame_state f); [discriminate | reflexivity | reflexivity].
Qed.

Lemma storage_setTemplate (f : Frame) : storage (setTemplate f) = storage f.
Proof. unfold setTemplate. now destruct (frame_state f). Qed.

Lemma reason_of_done (this : This) (e : Est) (stats : list Stats)
    (T_est : Matrix44) (k : KeyFramingReason) :
  reason_of this e stats T_est = inr k ->
  exists ok, verdict (checkResult (_params this) stats) = inr ok /\
             k = if ok then shouldKeyFrame (set_vo_pose this e) T_est
                 else kEstimationFailed.
Proof.
  unfold reason_of.
  destruct (verdict (checkResult (_params this) stats)) as [f | [|]];
    [discriminate | |]; intros Hk; injection Hk as <-; eauto.
Qed.

(** *** The claims on [addFrame] *)

(** C4. When the primary estimate is accepted and [shouldKeyFrame]
    returns no-keyframe, the call returns the displacement
    [T_est * _T_kf.inverse()] taken with the accumulated pose from before
    the call, stores [T_est] as the accumulated pose, and swaps the
    current and the previous slot, so that the frame just fed is the
    previous candidate. *)
Theorem addFrame_accepted_no_keyframe (this : This) (img : Image)
    (dis : Disparity) (guess : Matrix44) :
  hasTemplate (_ref_frame this) = true ->
  let est := primary this img dis guess in
  let T_est := snd est in
  verdict (checkResult (_params this) (snd (fst est))) = inr true ->
  shouldKeyFrame (set_vo_pose this (fst (fst est))) T_est = kNoKeyFraming ->
  exists r this',
    outcome (addFrame (Warp := Warp) img dis guess this) = inr (r, this') /\
    displacement r = Mmul T_est (Minverse (_T_kf this)) /\
    _T_kf this' = T_est /\
    _prev_frame this' = fed this img dis /\
    _cur_frame this' = _prev_frame this /\
    _ref_frame this' = _ref_frame this /\
    success r = true /\ isKeyFrame r = false /\
    keyFramingReason r = kNoKeyFraming.
Proof.
  intros Href est T_est Hok Hdec.
  rewrite (@addFrame_tracking_run this img dis guess Href Hok Hdec).
  eexists. eexists. split; [reflexivity |].
  repeat split.
Qed.

(** C3. When a keyframe is declared and the previous slot is empty, the
    call returns success=false with the reason of the trigger, swaps the
    current frame into the reference slot and promotes it to template,
    and asks the estimator for one pose only. *)
Theorem addFrame_keyframe_without_previous (this : This) (img : Image)
    (dis : Disparity) (guess : Matrix44) (k : KeyFramingReason) :
  hasTemplate (_ref_frame this) = true ->
  primary_reason this img dis guess = inr k ->
  k <> kNoKeyFraming ->
  empty (_prev_frame this) = true ->
  exists r this',
    outcome (addFrame (Warp := Warp) img dis guess this) = inr (r, this') /\
    success r = false /\ keyFramingReason r = k /\ isKeyFrame r = true /\
    _ref_frame this' = setTemplate (fed this img dis) /\
    hasTemplate (_ref_frame this') = true /\
    _cur_frame this' = _ref_frame this /\
    _prev_frame this' = _prev_frame this /\
    _T_kf this' = Identity /\
    filter is_EvEstimatePose
           (events (addFrame (Warp := Warp) img dis guess this)) =
    [EvEstimatePose (_ref_frame this) (fed this img dis)
                    (Mmul (_T_kf this) guess)].
Proof.
  intros Href Hreason Hk Hprev.
  destruct (reason_of_done _ _ _ _ Hreason) as [ok [Hok Heq]].
  destruct (getPointCloudFromRefFrame_done
              (set_vo_pose this (fst (fst (primary this img dis guess)))) Href)
    as [cloud Hcloud].
  rewrite Heq in Hk.
  rewrite (@addFrame_starved_run this img dis guess ok cloud Href Hok Hk Hcloud Hprev).
  eexists. eexists. split; [reflexivity |]. cbn [events].
  repeat split; try (symmetry; exact Heq).
  now destruct ok.
Qed.

(** C2. When a keyframe is declared and the previous slot is not empty,
    the previous frame is swapped into the reference slot and promoted,
    the vacated previous slot is cleared, the pose is estimated once more,
    against the new reference and from the raw guess; the displacement
    and the accumulated pose are the new estimate.  A rejected second
    estimate gives estimation-failed and success=false; an accepted one
    with a keyframe trigger gives success=false; otherwise success=true.
    The statistics are those of the second estimate and the point cloud
    is the one extracted from the outgoing reference. *)
Theorem addFrame_keyframe_with_previous (this : This) (img : Image)
    (dis : Disparity) (guess : Matrix44) (k : KeyFramingReason) (ok2 : bool) :
  hasTemplate (_ref_frame this) = true ->
  primary_reason this img dis guess = inr k ->
  k <> kNoKeyFraming ->
  empty (_prev_frame this) = false ->
  let est := primary this img dis guess in
  let est2 := backup this img dis guess in
  verdict (checkResult (_params this) (snd (fst est2))) = inr ok2 ->
  exists r this',
    outcome (addFrame (Warp := Warp) img dis guess this) = inr (r, this') /\
    _ref_frame this' = setTemplate (_prev_frame this) /\
    hasTemplate (_ref_frame this') = true /\
    _prev_frame this' = clear (_ref_frame this) /\
    empty (_prev_frame this') = true /\
    _cur_frame this' = fed this img dis /\
    filter is_EvEstimatePose
           (events (addFrame (Warp := Warp) img dis guess this)) =
    [EvEstimatePose (_ref_frame this) (fed this img dis)
                    (Mmul (_T_kf this) guess);
     EvEstimatePose (setTemplate (_prev_frame this)) (fed this img dis) guess] /\
    displacement r = snd est2 /\
    _T_kf this' = snd est2 /\
    optimizerStatistics r = snd (fst est2) /\
    inr (pointCloud r) =
      getPointCloudFromRefFrame (Warp := Warp)
                                (set_vo_pose this (fst (fst est))) /\
    isKeyFrame r = true /\
    (ok2 = false -> keyFramingReason r = kEstimationFailed /\ success r = false) /\
    (ok2 = true ->
     let k2 := shouldKeyFrame (set_vo_pose this (fst (fst est2))) (snd est2) in
     keyFramingReason r = k2 /\
     (k2 <> kNoKeyFraming -> success r = false) /\
     (k2 = kNoKeyFraming -> success r = true)).
Proof.
  intros Href Hreason Hk Hprev est est2 Hok2.
  destruct (reason_of_done _ _ _ _ Hreason) as [ok [Hok Heq]].
  destruct (getPointCloudFromRefFrame_done
              (set_vo_pose this (fst (fst est))) Href) as [cloud Hcloud].
  rewrite Heq in Hk.
  rewrite (@addFrame_backup_run this img dis guess ok ok2 cloud
             Href Hok Hk Hcloud Hprev Hok2).
  eexists. eexists. split; [reflexivity |]. cbn [events]. fields.
  split; [reflexivity |].
  split; [now apply hasTemplate_setTemplate |].
  split; [reflexivity |]. split; [reflexivity |]. split; [reflexivity |].
  split; [now destruct ok, ok2 |].
  split; [reflexivity |]. split; [reflexivity |]. split; [reflexivity |].
  split; [now rewrite Hcloud |]. split; [reflexivity |].
  split; intros ->; [split; reflexivity |].
  cbn zeta. split; [reflexivity |].
  fold est2. destruct (shouldKeyFrame _ (snd est2));
    split; try reflexivity; try discriminate; intros Habs; now elim Habs.
Qed.

(** C1, as the code has it.  When the validator rejects the primary
    estimate, [shouldKeyFrame] is not called on that estimate: the call
    asks for the point cloud right after the validator, since
    estimation-failed is itself a keyframe trigger.  With an empty
    previous slot the returned reason is estimation-failed, isKeyFrame is
    true, success is false, [shouldKeyFrame] is not called at all and the
    current frame goes to the reference slot, not to the previous one.
    With a previous candidate the backup estimation runs, isKeyFrame is
    true and the current frame stays in the current slot. *)
Theorem addFrame_primary_rejected (this : This) (img : Image)
    (dis : Disparity) (guess : Matrix44) :
  hasTemplate (_ref_frame this) = true ->
  let est := primary this img dis guess in
  let est2 := backup this img dis guess in
  let run := addFrame (Warp := Warp) img dis guess this in
  verdict (checkResult (_params this) (snd (fst est))) = inr false ->
  (exists rest,
     events run = EvEstimatePose (_ref_frame this) (fed this img dis)
                                 (Mmul (_T_kf this) guess)
                  :: EvCheckResult (snd (fst est))
                  :: EvGetPointCloud :: rest) /\
  (empty (_prev_frame this) = true ->
   exists r this',
     outcome run = inr (r, this') /\
     filter is_EvShouldKeyFrame (events run) = [] /\
     keyFramingReason r = kEstimationFailed /\
     isKeyFrame r = true /\ success r = false /\
     _ref_frame this' = setTemplate (fed this img dis) /\
     _cur_frame this' = _ref_frame this /\
     _prev_frame this' = _prev_frame this) /\
  (empty (_prev_frame this) = false ->
   forall ok2,
     verdict (checkResult (_params this) (snd (fst est2))) = inr ok2 ->
     exists r this',
       outcome run = inr (r, this') /\
       isKeyFrame r = true /\
       keyFramingReason r =
         (if ok2
          then shouldKeyFrame (set_vo_pose this (fst (fst est2))) (snd est2)
          else kEstimationFailed) /\
       _ref_frame this' = setTemplate (_prev_frame this) /\
       _cur_frame this' = fed this img dis /\
       _prev_frame this' = clear (_ref_frame this)).
Proof.
  intros Href est est2 run Hok. subst run.
  destruct (getPointCloudFromRefFrame_done
              (set_vo_pose this (fst (fst est))) Href) as [cloud Hcloud].
  assert (Hk : (if false
                then shouldKeyFrame (set_vo_pose this (fst (fst est))) (snd est)
                else kEstimationFailed) <> kNoKeyFraming) by discriminate.
  split; [| split].
  - destruct (empty (_prev_frame this)) eqn:Hprev.
    + rewrite (@addFrame_starved_run this img dis guess false cloud
                 Href Hok Hk Hcloud Hprev).
      now exists [].
    + destruct (verdict (checkResult (_params this) (snd (fst est2))))
        as [f | ok2] eqn:Hok2.
      * rewrite (@addFrame_backup_fault this img dis guess false f cloud
                   Href Hok Hk Hcloud Hprev Hok2).
        cbn [events app]. eauto.
      * rewrite (@addFrame_backup_run this img dis guess false ok2 cloud
                   Href Hok Hk Hcloud Hprev Hok2).
        cbn [events app]. eauto.
  - intros Hprev.
    rewrite (@addFrame_starved_run this img dis guess false cloud
               Href Hok Hk Hcloud Hprev).
    eexists. eexists. split; [reflexivity |]. repeat split.
  - intros Hprev ok2 Hok2.
    rewrite (@addFrame_backup_run this img dis guess false ok2 cloud
               Href Hok Hk Hcloud Hprev Hok2).
    eexists. eexists. split; [reflexivity |]. repeat split.
Qed.

(** C7. The first call on a fresh object returns success=false,
    isKeyFrame=true, reason first-frame, the identity as displacement and
    as covariance, one default statistics entry per pyramid level and no
    point cloud; the frame just fed is swapped into the reference slot and
    promoted to template, the identity pose is appended to the trajectory,
    and the estimator is not called. *)
Theorem addFrame_first_frame (K : Matrix33) (b : num) (s : ImageSize)
    (p : AlgorithmParameters num) (img : Image) (dis : Disparity)
    (guess : Matrix44) :
  let this := Impl_new K b s p in
  exists r this',
    addFrame (Warp := Warp) img dis guess this =
      {| events := []; outcome := inr (r, this') |} /\
    success r = false /\ isKeyFrame r = true /\
    keyFramingReason r = kFirstFrame /\
    displacement r = Identity /\ covariance r = Identity /\
    optimizerStatistics r =
      repeat OptimizerStatistics_new (Z.to_nat (numPyramidLevels (_params this))) /\
    Z.of_nat (length (optimizerStatistics r)) =
      Z.max 0 (numPyramidLevels (_params this)) /\
    pointCloud r = None /\
    _ref_frame this' = setTemplate (fed this img dis) /\
    storage (_ref_frame this') = storage (_cur_frame this) /\
    hasTemplate (_ref_frame this') = true /\
    _cur_frame this' = _ref_frame this /\
    _prev_frame this' = _prev_frame this /\
    _T_kf this' = Identity /\
    _trajectory this' = [Identity].
Proof.
  intros this.
  rewrite (@addFrame_bootstrap_run this img dis guess eq_refl).
  eexists. eexists. split; [reflexivity |].
  repeat split.
  cbn [optimizerStatistics FirstFrameResult set_pointCloud
       set_keyFramingReason set_isKeyFrame set_optimizerStatistics].
  rewrite repeat_length. cbn [this Impl_new _cur_frame Frame_new numLevels _params].
  lia.
Qed.

(** *** The slots after a call *)

Lemma NoDup_three (a b c : nat) :
  NoDup [a; b; c] <-> a <> b /\ a <> c /\ b <> c.
Proof.
  split.
  - intros Hnd. inversion Hnd as [| x l Ha Hbc]; subst.
    inversion Hbc as [| y l' Hb Hc]; subst. simpl in *.
    intuition congruence.
  - intros [Hab [Hac Hbc]].
    constructor; [simpl; intros [H | [H | []]]; congruence |].
    constructor; [simpl; intros [H | []]; congruence |].
    constructor; [simpl; tauto | constructor].
Qed.

(** The two ways a keyframe call completes. *)
Lemma addFrame_keyframe_cases (this this' : This) (img : Image)
    (dis : Disparity) (guess : Matrix44) (ok : bool) (r : Res) :
  hasTemplate (_ref_frame this) = true ->
  let est := primary this img dis guess in
  verdict (checkResult (_params this) (snd (fst est))) = inr ok ->
  (if ok then shouldKeyFrame (set_vo_pose this (fst (fst est))) (snd est)
   else kEstimationFailed) <> kNoKeyFraming ->
  outcome (addFrame (Warp := Warp) img dis guess this) = inr (r, this') ->
  isKeyFrame r = true /\
  ((empty (_prev_frame this) = true /\
    _ref_frame this' = setTemplate (fed this img dis) /\
    _cur_frame this' = _ref_frame this /\
    _prev_frame this' = _prev_frame this) \/
   (empty (_prev_frame this) = false /\
    _ref_frame this' = setTemplate (_prev_frame this) /\
    _cur_frame this' = fed this img dis /\
    _prev_frame this' = clear (_ref_frame this))).
Proof.
  intros Href est Hok Hk Hrun.
  destruct (getPointCloudFromRefFrame_done
              (set_vo_pose this (fst (fst est))) Href) as [cloud Hcloud].
  destruct (empty (_prev_frame this)) eqn:Hprev.
  - rewrite (@addFrame_starved_run this img dis guess ok cloud
               Href Hok Hk Hcloud Hprev) in Hrun.
    cbn [outcome] in Hrun. injection Hrun as <- <-.
    split; [reflexivity |]. left. repeat split.
  - destruct (verdict (checkResult (_params this)
                (snd (fst (backup this img dis guess))))) as [f | ok2] eqn:Hok2.
    + rewrite (@addFrame_backup_fault this img dis guess ok f cloud
                 Href Hok Hk Hcloud Hprev Hok2) in Hrun.
      discriminate.
    + rewrite (@addFrame_backup_run this img dis guess ok ok2 cloud
                 Href Hok Hk Hcloud Hprev Hok2) in Hrun.
      cbn [outcome] in Hrun. injection Hrun as <- <-.
      split; [reflexivity |]. right. repeat split.
Qed.

(** The four ways a call completes, and where the frames are then. *)
Lemma addFrame_slots_cases (this this' : This) (img : Image)
    (dis : Disparity) (guess : Matrix44) (r : Res) :
  outcome (addFrame (Warp := Warp) img dis guess this) = inr (r, this') ->
  (hasTemplate (_ref_frame this) = false /\
   _ref_frame this' = setTemplate (fed this img dis) /\
   _cur_frame this' = _ref_frame this /\
   _prev_frame this' = _prev_frame this) \/
  (hasTemplate (_ref_frame this) = true /\ isKeyFrame r = false /\
   _ref_frame this' = _ref_frame this /\
   _cur_frame this' = _prev_frame this /\
   _prev_frame this' = fed this img dis) \/
  (hasTemplate (_ref_frame this) = true /\ isKeyFrame r = true /\
   empty (_prev_frame this) = true /\
   _ref_frame this' = setTemplate (fed this img dis) /\
   _cur_frame this' = _ref_frame this /\
   _prev_frame this' = _prev_frame this) \/
  (hasTemplate (_ref_frame this) = true /\ isKeyFrame r = true /\
   empty (_prev_frame this) = false /\
   _ref_frame this' = setTemplate (_prev_frame this) /\
   _cur_frame this' = fed this img dis /\
   _prev_frame this' = clear (_ref_frame this)).
Proof.
  intros Hrun.
  destruct (hasTemplate (_ref_frame this)) eqn:Href.
  - right.
    destruct (verdict (checkResult (_params this)
                (snd (fst (primary this img dis guess))))) as [f | ok] eqn:Hok.
    { rewrite (@addFrame_primary_fault this img dis guess f Href Hok) in Hrun.
      discriminate. }
    pose proof (fun Hk => @addFrame_keyframe_cases this this' img dis guess
                             ok r Href Hok Hk Hrun) as Hkeyframe.
    cbn zeta in Hkeyframe.
    destruct ok.
    + destruct (shouldKeyFrame
                  (set_vo_pose this (fst (fst (primary this img dis guess))))
                  (snd (primary this img dis guess))) eqn:Hdec.
      2: { left.
           rewrite (@addFrame_tracking_run this img dis guess Href Hok Hdec)
             in Hrun.
           cbn [outcome] in Hrun. injection Hrun as <- <-. repeat split. }
      all: right; destruct Hkeyframe as [Hkey [Hcase | Hcase]];
        [discriminate | left; tauto | right; tauto].
    + right. destruct Hkeyframe as [Hkey [Hcase | Hcase]];
        [discriminate | left; tauto | right; tauto].
  - left.
    rewrite (@addFrame_bootstrap_run this img dis guess Href) in Hrun.
    cbn [outcome] in Hrun. injection Hrun as <- <-. repeat split.
Qed.

(** Whatever calls were made, the previous slot holds no template and the
    three slots point to three distinct frames. *)
Lemma Reachable_slots (this : Impl num Matrix44 Image Disparity Est) :
  Reachable (Matrix33 := Matrix33) (Point := Point) (Warp := Warp) this ->
  hasTemplate (_prev_frame this) = false /\ NoDup (slots this).
Proof.
  induction 1 as [K b s p | this this' img dis guess r Hreach [IHprev IHnd] Hrun].
  - split; [reflexivity |]. apply NoDup_three. cbn. lia.
  - unfold slots in *. apply NoDup_three in IHnd.
    destruct (addFrame_slots_cases _ _ _ _ Hrun)
      as [[_ [-> [-> ->]]] | [[_ [_ [-> [-> ->]]]] |
          [[_ [_ [_ [-> [-> ->]]]]] | [_ [_ [_ [-> [-> ->]]]]]]]];
      (split; [first [exact IHprev | reflexivity] |]);
      apply NoDup_three; rewrite ?storage_setTemplate; unfold fed, setData, clear;
      cbn [storage with_state]; intuition congruence.
Qed.

(** C8, as the code has it.  After every completed call the reference
    slot holds a templated frame, the previous slot holds a raw or empty
    frame and the three slots point to three distinct frames.  The
    current slot holds a templated frame exactly after a keyframe call
    that found the previous slot empty: the outgoing reference is swapped
    into it with its template. *)
Theorem addFrame_slot_invariant (this this' : Impl num Matrix44 Image Disparity Est)
    (img : Image) (dis : Disparity) (guess : Matrix44) (r : Res) :
  Reachable (Matrix33 := Matrix33) (Point := Point) (Warp := Warp) this ->
  outcome (addFrame (Warp := Warp) img dis guess this) = inr (r, this') ->
  hasTemplate (_ref_frame this') = true /\
  hasTemplate (_prev_frame this') = false /\
  NoDup (slots this') /\
  (hasTemplate (_cur_frame this') = true <->
   hasTemplate (_ref_frame this) = true /\ isKeyFrame r = true /\
   empty (_prev_frame this) = true) /\
  length (templated this') =
    (if hasTemplate (_cur_frame this') then 2 else 1)%nat.
Proof.
  intros Hreach Hrun.
  destruct (Reachable_slots (Reachable_addFrame _ _ _ Hreach Hrun))
    as [Hprev' Hnd'].
  destruct (Reachable_slots Hreach) as [Hprev _].
  assert (Href' : hasTemplate (_ref_frame this') = true);
    [| split; [exact Href' |];
       split; [exact Hprev' |];
       split; [exact Hnd' |];
       split;
       [| unfold templated; cbn [filter]; rewrite Href', Hprev';
          now destruct (hasTemplate (_cur_frame this'))]].
  - destruct (addFrame_slots_cases _ _ _ _ Hrun)
      as [[_ [-> _]] | [[Href [_ [-> _]]] | [[_ [_ [_ [-> _]]]] |
          [_ [_ [Hne [-> _]]]]]]];
      first [reflexivity | exact Href | now apply hasTemplate_setTemplate].
  - destruct (addFrame_slots_cases _ _ _ _ Hrun)
      as [[Href [_ [-> _]]] | [[Href [Hkey [_ [-> _]]]] |
          [[Href [Hkey [Hemp [_ [-> _]]]]] | [Href [Hkey [Hemp [_ [-> _]]]]]]]].
    + rewrite Href. split; [discriminate | intros [Habs _]; discriminate].
    + rewrite Hprev, Hkey.
      split; [discriminate | intros [_ [Habs _]]; discriminate].
    + rewrite Href. tauto.
    + rewrite Hemp. cbn.
      split; [discriminate | intros [_ [_ Habs]]; discriminate].
Qed.

End AddFrameFacts.

(** ** The keyframing decision and the point cloud *)

Section DecisionFacts.

Context {num Matrix44 Matrix33 Image Disparity Point Warp Est : Type}.
Context {SC : Scalar num} {PO : Pose num Matrix44} {RA : Raster Image}.
Context {TA : TemplateAccess num Image Disparity Point Warp}.
Context {PE : PoseEstimator num Matrix44 Image Disparity Est}.

Local Abbreviation This := (Impl num Matrix44 Image Disparity Est).

(** C6. [shouldKeyFrame] tries translation, then rotation, then the
    fraction of good points, returns the first trigger that fires and
    no-keyframe when none does; when both the squared translation norm and
    the squared Euler-angle norm exceed their thresholds the reason is
    large-translation. *)
Theorem shouldKeyFrame_priority (this : This) (pose : Matrix44) :
  let far := Ngtb (translationSquaredNorm pose)
                  (Nsq (minTranslationMagToKeyFrame (_params this))) in
  let turned := Ngtb (eulerAnglesSquaredNorm pose)
                     (Nsq (minRotationMagToKeyFrame (_params this))) in
  let poor := Nltb (getFractionOfGoodPoints (Matrix44 := Matrix44)
                      (Image := Image) (Disparity := Disparity)
                      (_vo_pose this) (goodPointThreshold (_params this)))
                   (maxFractionOfGoodPointsToKeyFrame (_params this)) in
  (far = true -> shouldKeyFrame this pose = kLargeTranslation) /\
  (far = false -> turned = true -> shouldKeyFrame this pose = kLargeRotation) /\
  (far = false -> turned = false -> poor = true ->
   shouldKeyFrame this pose = kSmallFracOfGoodPoints) /\
  (far = false -> turned = false -> poor = false ->
   shouldKeyFrame this pose = kNoKeyFraming) /\
  (far = true -> turned = true -> shouldKeyFrame this pose = kLargeTranslation).
Proof.
  intros far turned poor. unfold shouldKeyFrame.
  fold far. fold turned. fold poor.
  repeat split; intros; repeat match goal with H : _ = _ |- _ => rewrite H end;
    reflexivity.
Qed.

Lemma nth_error_combine {A B} (l1 : list A) (l2 : list B) (i : nat) (a : A) (b : B) :
  nth_error l1 i = Some a -> nth_error l2 i = Some b ->
  nth_error (combine l1 l2) i = Some (a, b).
Proof.
  revert l2 i. induction l1 as [| x l1 IH]; intros [| y l2] [| i]; simpl;
    try discriminate.
  - now intros [= ->] [= ->].
  - apply IH.
Qed.

(** C9. The extractor returns the null cloud, and no fault, when the
    number of tracked points at the test level differs from the number of
    weights.  When the two agree, and the reference is templated as it is
    at keyframe time, it returns a cloud with one entry per tracked point:
    the point, its colour and its weight.  The colour has the same gray
    sample in the three channels and alpha 255; the sample is read from
    the image at the projection of the point when the projection is
    inside the image, and is zero otherwise. *)
Theorem getPointCloudFromRefFrame_cloud (this : This) :
  let level := maxTestLevel (_params this) in
  let points := pointsAtLevel (Warp := Warp) this level in
  let weights := getWeights (Matrix44 := Matrix44) (Image := Image)
                            (Disparity := Disparity) (_vo_pose this) in
  (length points <> length weights ->
   getPointCloudFromRefFrame (Warp := Warp) this = inr None) /\
  (length points = length weights ->
   hasTemplate (_ref_frame this) = true ->
   exists image cloud,
     imagePointer (_ref_frame this) = Some image /\
     getPointCloudFromRefFrame (Warp := Warp) this = inr (Some cloud) /\
     length cloud = length points /\
     forall i p w,
       nth_error points i = Some p -> nth_error weights i = Some w ->
       nth_error cloud i =
       Some {| xyzw := p;
               rgba := GetColor (Disparity := Disparity) image
                         (templateWarp (num := num) (Point := Point)
                                       (_ref_frame this) level) p;
               weight := w |}) /\
  (forall (image : Image) (warp : Warp) (p : Point),
     let uv := getImagePoint (Image := Image) (Disparity := Disparity) warp p in
     let inside :=
       Ngeb (snd uv) (N_of_Z 0) && Nltb (snd uv) (N_of_Z (mat_rows image)) &&
       Ngeb (fst uv) (N_of_Z 0) && Nltb (fst uv) (N_of_Z (mat_cols image)) in
     exists c,
       GetColor (Disparity := Disparity) image warp p =
       {| red := c; green := c; blue := c; alpha := 255 |} /\
       0 <= c < 256 /\
       (inside = true -> c = at_uint8 image (Ntrunc (snd uv)) (Ntrunc (fst uv))) /\
       (inside = false -> c = 0)).
Proof.
  intros level points weights. split; [| split].
  - intros Hne. unfold getPointCloudFromRefFrame.
    fold level. fold points. fold weights.
    apply Nat.eqb_neq in Hne. now rewrite Hne.
  - intros Heq Href.
    unfold hasTemplate in Href. unfold getPointCloudFromRefFrame, imagePointer.
    fold level. fold points. fold weights.
    apply Nat.eqb_eq in Heq. rewrite Heq. apply Nat.eqb_eq in Heq.
    destruct (frame_state (_ref_frame this)) as [| img dis | img dis];
      try discriminate.
    exists img. eexists. split; [reflexivity |]. split; [reflexivity |]. split.
    + rewrite length_map, length_combine, <- Heq. apply Nat.min_id.
    + intros i p w Hp Hw.
      rewrite (map_nth_error _ _ _ (nth_error_combine _ _ _ Hp Hw)).
      reflexivity.
  - intros image warp p uv inside. unfold GetColor. fold uv. fold inside.
    destruct inside.
    + eexists. split; [reflexivity |]. split.
      * unfold at_uint8. apply Z.mod_pos_bound. lia.
      * split; [reflexivity | discriminate].
    + exists 0. split; [reflexivity |]. split; [lia |].
      split; [discriminate | reflexivity].
Qed.

End DecisionFacts.

(** ** The theorems on explicit inputs *)

Section Examples.

Import Demo.

Lemma checkResult_accepts_iff_witness :
  verdict (checkResult params [failed; good; good]) = inr true /\
  checkResult params [failed; good; good] = checkResult params [good; good; good].
Proof.
  split.
  - apply (proj1 (checkResult_accepts_iff params [failed; good; good])).
    exists good. split; [reflexivity |]. split; [reflexivity |].
    intros i s Hi Hs. cbn in Hi.
    assert (Hcases : i = 1 \/ i = 2) by lia.
    destruct Hcases as [-> | ->]; cbn in Hs; injection Hs as <-; discriminate.
  - apply (proj2 (proj2 (checkResult_accepts_iff params [good; good; good])));
      [reflexivity |].
    intros i Hi. cbn in Hi. unfold at_index.
    destruct (i <? 0); [reflexivity |].
    destruct (Z.to_nat i) as [| n] eqn:Hn; [lia | reflexivity].
Defined.

Lemma checkResult_accesses_witness :
  (exists b, verdict (checkResult params [good; good; good]) = inr b) /\
  verdict (checkResult params [good]) = inl (OutOfRange 1 1).
Proof.
  split.
  - destruct (checkResult_accesses params [good; good; good])
      as [_ [_ [Hin _]]].
    destruct (Hin good) as [_ [_ Hdone]];
      [cbn; lia | reflexivity | discriminate | exact Hdone].
  - destruct (checkResult_accesses params [good]) as [_ [_ [_ Hshort]]].
    destruct Hshort as [_ [Hfault _]]; [cbn; lia | exact Hfault].
Defined.

Lemma shouldKeyFrame_priority_witness :
  shouldKeyFrame (PE := estimator []) (after_first [])
                 {| angle := 2; along := 3 |} = kLargeTranslation.
Proof.
  apply (proj2 (proj2 (proj2 (proj2
           (shouldKeyFrame_priority (PE := estimator []) (after_first [])
                                    {| angle := 2; along := 3 |})))));
    reflexivity.
Defined.

Lemma getPointCloudFromRefFrame_cloud_witness :
  getPointCloudFromRefFrame (PE := estimator [small]) (Warp := unit)
                            (after_first [small]) = inr None /\
  exists cloud,
    getPointCloudFromRefFrame (PE := estimator [small]) (Warp := unit)
                              (after_second [small]) = inr (Some cloud) /\
    length cloud = 3%nat.
Proof.
  split.
  - apply (proj1 (getPointCloudFromRefFrame_cloud (PE := estimator [small])
                    (Warp := unit) (after_first [small]))).
    vm_compute. discriminate.
  - destruct (proj1 (proj2 (getPointCloudFromRefFrame_cloud
                              (PE := estimator [small]) (Warp := unit)
                              (after_second [small]))))
      as [image [cloud [_ [Hcloud [Hlen _]]]]];
      [reflexivity | reflexivity |].
    exists cloud. split; [exact Hcloud | exact Hlen].
Defined.

Lemma addFrame_accepted_no_keyframe_witness :
  exists r this',
    outcome (call [small] image2 (after_first [small])) = inr (r, this') /\
    displacement r = Mmul {| angle := 0; along := 1 |}
                          (Minverse (_T_kf (after_first [small]))) /\
    _T_kf this' = {| angle := 0; along := 1 |}.
Proof.
  destruct (addFrame_accepted_no_keyframe (PE := estimator [small]) (Warp := unit)
              (Point := Point3) (after_first [small]) image2 image2 Identity)
    as [r [this' [Hrun [Hdisp [Hkf _]]]]];
    [reflexivity | reflexivity | reflexivity |].
  exists r, this'. split; [exact Hrun |]. split; [exact Hdisp | exact Hkf].
Defined.

Lemma addFrame_keyframe_without_previous_witness :
  exists r this',
    outcome (call [long] image2 (after_first [long])) = inr (r, this') /\
    success r = false /\ keyFramingReason r = kLargeTranslation.
Proof.
  destruct (addFrame_keyframe_without_previous (PE := estimator [long]) (Warp := unit)
              (Point := Point3) (after_first [long]) image2 image2 Identity (k := kLargeTranslation))
    as [r [this' [Hrun [Hsucc [Hreason _]]]]];
    [reflexivity | reflexivity | discriminate | reflexivity |].
  exists r, this'. split; [exact Hrun |]. split; [exact Hsucc | exact Hreason].
Defined.

Lemma addFrame_keyframe_with_previous_witness :
  exists r this',
    outcome (call [small; long; small] image3
                  (after_second [small; long; small])) = inr (r, this') /\
    displacement r = {| angle := 0; along := 1 |} /\
    isKeyFrame r = true.
Proof.
  destruct (addFrame_keyframe_with_previous
              (PE := estimator [small; long; small]) (Warp := unit)
              (Point := Point3) (after_second [small; long; small])
              image3 image3 Identity
              (k := kLargeTranslation) (ok2 := true))
    as (r & this' & Hrun & _ & _ & _ & _ & _ & _ & Hdisp & _ & _ & _ & Hkey & _);
    [reflexivity | reflexivity | discriminate | reflexivity | reflexivity |].
  exists r, this'. split; [exact Hrun |]. split; [exact Hdisp | exact Hkey].
Defined.

Lemma addFrame_primary_rejected_witness :
  (exists r this',
     outcome (call [rejected] image2 (after_first [rejected]))
       = inr (r, this') /\
     keyFramingReason r = kEstimationFailed /\ isKeyFrame r = true) /\
  (exists r this',
     outcome (call [small; rejected; small] image3
                   (after_second [small; rejected; small]))
       = inr (r, this') /\
     isKeyFrame r = true /\
     _prev_frame this'
       = clear (_ref_frame (after_second [small; rejected; small]))).
Proof.
  split.
  - destruct (addFrame_primary_rejected (PE := estimator [rejected])
                (Warp := unit) (Point := Point3)
                (after_first [rejected]) image2 image2 Identity)
      as [_ [Hstarved _]]; [reflexivity | reflexivity |].
    destruct Hstarved as [r [this' [Hrun [_ [Hreason [Hkey _]]]]]];
      [reflexivity |].
    exists r, this'. split; [exact Hrun |]. split; [exact Hreason | exact Hkey].
  - destruct (addFrame_primary_rejected
                (PE := estimator [small; rejected; small])
                (Warp := unit) (Point := Point3)
                (after_second [small; rejected; small]) image3 image3 Identity)
      as [_ [_ Hbackup]]; [reflexivity | reflexivity |].
    destruct (Hbackup eq_refl true eq_refl)
      as [r [this' [Hrun [Hkey [_ [_ [_ Hprev]]]]]]].
    exists r, this'. split; [exact Hrun |]. split; [exact Hkey | exact Hprev].
Defined.

(** Against C1 as first stated: after a first frame the validator
    rejects the estimate of the second one, and the call returns
    isKeyFrame=true and leaves the previous slot as it was, the frame just
    fed going to the reference slot. *)
Lemma addFrame_primary_rejected_counterexample :
  let this := after_first [rejected] in
  hasTemplate (_ref_frame this) = true /\
  verdict (checkResult (_params this)
             (snd (fst (primary (PE := estimator [rejected]) this image2 image2
                                Identity)))) = inr false /\
  exists r this',
    outcome (call [rejected] image2 this) = inr (r, this') /\
    isKeyFrame r <> false /\
    _prev_frame this' <> fed this image2 image2 /\
    _prev_frame this' = _prev_frame this /\
    _ref_frame this' = setTemplate (fed this image2 image2).
Proof.
  intros this. split; [reflexivity |]. split; [reflexivity |].
  eexists. eexists. split; [vm_compute; reflexivity |].
  split; [discriminate |]. split; [vm_compute; discriminate |].
  split; reflexivity.
Qed.

Lemma Reachable_after_first (replies : list Reply) :
  Reachable (PE := estimator replies) (Matrix33 := unit) (Point := Point3)
            (Warp := unit) (after_first replies).
Proof.
  eapply Reachable_addFrame with (this := fresh replies)
    (img := image1) (dis := image1) (guess := Identity).
  - apply Reachable_new.
  - reflexivity.
Qed.

Lemma addFrame_slot_invariant_witness :
  hasTemplate (_ref_frame (after_second [long])) = true /\
  NoDup (slots (after_second [long])).
Proof.
  destruct (addFrame_slot_invariant (PE := estimator [long]) (Warp := unit)
              (Point := Point3) (Matrix33 := unit)
              (this := after_first [long]) (this' := after_second [long])
              (r := fst (match outcome (call [long] image2 (after_first [long]))
                         with
                         | inr x => x
                         | inl _ => (Result_new, after_first [long])
                         end))
              image2 image2 Identity)
    as [Href [_ [Hnd _]]];
    [apply Reachable_after_first | reflexivity |].
  split; [exact Href | exact Hnd].
Defined.

(** Against C8 as first stated: a first frame and then a frame that
    moved far trigger a keyframe with the previous slot empty; when the
    second call has returned, the reference and the current slot both
    hold a templated frame. *)
Lemma addFrame_slot_invariant_counterexample :
  let this := after_first [long] in
  let this' := after_second [long] in
  Reachable (PE := estimator [long]) (Matrix33 := unit) (Point := Point3)
            (Warp := unit) this /\
  (exists r, outcome (call [long] image2 this) = inr (r, this')) /\
  hasTemplate (_ref_frame this') = true /\
  hasTemplate (_cur_frame this') = true /\
  length (templated this') <> 1%nat.
Proof.
  intros this this'. split; [apply Reachable_after_first |].
  split; [eexists; vm_compute; reflexivity |].
  split; [reflexivity |]. split; [reflexivity |]. vm_compute. discriminate.
Qed.

End Examples.

(** ** More on the result validator *)

Section ValidatorEdges.

Context {num : Type} {SC : Scalar num}.
Local Abbreviation Stats := (OptimizerStatistics num).

Lemma map_seq_from (c : Z) (len start : nat) :
  map (fun k => c - Z.of_nat k) (seq start len) =
  map (fun k => c - Z.of_nat start - Z.of_nat k) (seq 0 len).
Proof.
  revert c start. induction len as [| len IH]; intros c start; simpl;
    [reflexivity |].
  f_equal; [lia |].
  rewrite (IH c (S start)), (IH (c - Z.of_nat start) 1%nat).
  apply map_ext. intros k. lia.
Qed.

Lemma down_range_split (hi mid lo : Z) :
  lo <= mid <= hi + 1 ->
  down_range hi lo = down_range hi mid ++ down_range (mid - 1) lo.
Proof.
  intros Hmid. unfold down_range.
  replace (Z.to_nat (hi - lo + 1))
    with (Z.to_nat (hi - mid + 1) + Z.to_nat (mid - 1 - lo + 1))%nat by lia.
  rewrite seq_app, map_app. f_equal.
  rewrite map_seq_from. apply map_ext. intros k. lia.
Qed.

Lemma format_levels_stops (stats : list Stats) (before : list Z) (bad : Z)
    (rest : list Z) :
  (forall i, In i before -> 0 <= i < Z.of_nat (length stats)) ->
  at_index stats bad = None ->
  format_levels stats (before ++ bad :: rest) =
  {| touched := map ReadStat (before ++ [bad]);
     verdict := inl (OutOfRange bad (length stats)) |}.
Proof.
  intros Hin Hbad. induction before as [| i before IH]; simpl.
  - rewrite (stats_at_out_of_bounds _ _ Hbad). reflexivity.
  - destruct (at_index_in_bounds stats (Hin i (or_introl eq_refl))) as [s Hs].
    rewrite (stats_at_in_bounds _ _ Hs). unfold CheckedMonad.bind. simpl.
    rewrite IH; [reflexivity |]. intros j Hj. apply Hin. now right.
Qed.

(** A vector without the level [maxTestLevel]. *)
Lemma checkResult_short (p : AlgorithmParameters num) (stats : list Stats) :
  Z.of_nat (length stats) <= maxTestLevel p ->
  checkResult p stats =
  {| touched := [ReadStat (maxTestLevel p)];
     verdict := inl (OutOfRange (maxTestLevel p) (length stats)) |}.
Proof.
  intros Hshort.
  assert (Hnone : at_index stats (maxTestLevel p) = None)
    by (apply at_index_None_iff; lia).
  unfold checkResult.
  rewrite (down_range_empty (hi := Z.of_nat (length stats) - 1)
             (lo := maxTestLevel p)) by lia.
  simpl. rewrite (stats_at_out_of_bounds _ _ Hnone). reflexivity.
Qed.

Lemma checkResult_returns (p : AlgorithmParameters num) (stats : list Stats) :
  0 <= maxTestLevel p < Z.of_nat (length stats) ->
  exists ok, verdict (checkResult p stats) = inr ok.
Proof.
  intros Hmtl. destruct (at_index_in_bounds stats Hmtl) as [fin Hfin].
  rewrite (checkResult_in_bounds _ _ Hfin). simpl.
  destruct (Ngtb _ _); [now exists false |].
  destruct (@scan_status_done _ stats
              (down_range (Z.of_nat (length stats) - 1) (maxTestLevel p)))
    as [ok [Hok _]]; [| now exists ok].
  intros i Hi. apply down_range_In in Hi. lia.
Qed.

(** The run of [checkResult] under a negative [maxTestLevel]. *)
Lemma checkResult_below_zero (p : AlgorithmParameters num)
    (stats : list Stats) :
  maxTestLevel p < 0 ->
  checkResult p stats =
  {| touched := map ReadStat (down_range (Z.of_nat (length stats) - 1) (-1));
     verdict := inl (OutOfRange (-1) (length stats)) |}.
Proof.
  intros Hneg. unfold checkResult.
  rewrite (@down_range_split (Z.of_nat (length stats) - 1) 0 (maxTestLevel p))
    by lia.
  rewrite (@down_range_split (0 - 1) (-1) (maxTestLevel p)) by lia.
  change (down_range (0 - 1) (-1)) with [-1]. cbn [app].
  rewrite format_levels_stops.
  - rewrite (@down_range_split (Z.of_nat (length stats) - 1) 0 (-1)) by lia.
    reflexivity.
  - intros i Hi. apply down_range_In in Hi. lia.
  - reflexivity.
Qed.

(** X1. With a negative [maxTestLevel] the first loop of [checkResult]
    walks down from the last level past level 0 and reads [stats[-1]]:
    the run reads the indices [size-1, ..., 0, -1] and stops there, out
    of range, whatever the statistics are. *)
Theorem checkResult_negative_level (p : AlgorithmParameters num)
    (stats : list Stats) :
  maxTestLevel p < 0 ->
  checkResult p stats =
  {| touched := map ReadStat (down_range (Z.of_nat (length stats) - 1) (-1));
     verdict := inl (OutOfRange (-1) (length stats)) |}.
Proof. exact (checkResult_below_zero p stats). Qed.

Lemma scan_status_verdict_agree (stats stats' : list Stats) (idxs : list Z) :
  (forall i, In i idxs -> 0 <= i < Z.of_nat (length stats)) ->
  length stats' = length stats ->
  (forall i, In i idxs ->
     option_map (@status num) (at_index stats' i) =
     option_map (@status num) (at_index stats i)) ->
  verdict (scan_status stats' idxs) = verdict (scan_status stats idxs).
Proof.
  intros Hin Hlen. induction idxs as [| i idxs IH]; simpl; intros Hst;
    [reflexivity |].
  destruct (at_index_in_bounds stats (Hin i (or_introl eq_refl))) as [s Hs].
  destruct (at_index_in_bounds stats' (i := i)) as [s' Hs'];
    [rewrite Hlen; apply Hin; now left |].
  pose proof (Hst i (or_introl eq_refl)) as Hi.
  rewrite Hs, Hs' in Hi. simpl in Hi. injection Hi as Hi.
  rewrite (stats_at_in_bounds _ _ Hs), (stats_at_in_bounds _ _ Hs').
  unfold CheckedMonad.bind. simpl. rewrite Hi.
  destruct (is_kSolverError (status s)); [reflexivity |].
  apply IH; [intros j Hj; apply Hin; now right |].
  intros j Hj. apply Hst. now right.
Qed.

(** X2. The verdict of [checkResult], fault included, depends on the
    size of the vector, on the entry at [maxTestLevel] and on the solver
    status of the levels from [maxTestLevel] up, and on nothing else: the
    residuals and pixel counts of the other levels do not matter. *)
Theorem checkResult_verdict_reads (p : AlgorithmParameters num)
    (stats stats' : list Stats) :
  length stats' = length stats ->
  at_index stats' (maxTestLevel p) = at_index stats (maxTestLevel p) ->
  (forall i, maxTestLevel p <= i ->
     option_map (@status num) (at_index stats' i) =
     option_map (@status num) (at_index stats i)) ->
  verdict (checkResult p stats') = verdict (checkResult p stats).
Proof.
  intros Hlen Hfin Hst.
  destruct (at_index stats (maxTestLevel p)) as [fin |] eqn:Hat.
  - rewrite (checkResult_in_bounds _ _ Hat), (checkResult_in_bounds _ _ Hfin).
    simpl. destruct (Ngtb _ _); [reflexivity |]. rewrite Hlen.
    apply at_index_Some_bounds in Hat.
    apply scan_status_verdict_agree; try assumption.
    + intros i Hi. apply down_range_In in Hi. lia.
    + intros i Hi. apply down_range_In in Hi. apply Hst. lia.
  - apply at_index_None_iff in Hat.
    destruct (Z.lt_ge_cases (maxTestLevel p) 0) as [Hneg | Hpos].
    + rewrite !checkResult_below_zero by assumption. simpl.
      now rewrite Hlen.
    + rewrite !checkResult_short by lia. simpl. now rewrite Hlen.
Qed.

End ValidatorEdges.

(** ** More on the frame state machine *)

Section AddFrameMore.

Context {num Matrix44 Matrix33 Image Disparity Point Warp Est : Type}.
Context {SC : Scalar num} {PO : Pose num Matrix44} {RA : Raster Image}.
Context {TA : TemplateAccess num Image Disparity Point Warp}.
Context {PE : PoseEstimator num Matrix44 Image Disparity Est}.
Context {DF : Defaults num Matrix44 Point}.

Local Abbreviation Frame := (VisualOdometryFrame Image Disparity).
Local Abbreviation This := (Impl num Matrix44 Image Disparity Est).
Local Abbreviation Stats := (OptimizerStatistics num).
Local Abbreviation Res := (Result num Matrix44 Point).
Local Abbreviation Ev := (Event num Matrix44 Image Disparity).

(** The conditions that select the path of a call; one of them holds. *)
Lemma addFrame_conditions (this : This) (img : Image) (dis : Disparity)
    (guess : Matrix44) :
  let est := primary this img dis guess in
  let est2 := backup this img dis guess in
  let check := verdict (checkResult (_params this) (snd (fst est))) in
  let check2 := verdict (checkResult (_params this) (snd (fst est2))) in
  let decision := shouldKeyFrame (set_vo_pose this (fst (fst est))) (snd est) in
  hasTemplate (_ref_frame this) = false \/
  (hasTemplate (_ref_frame this) = true /\
   ((exists f, check = inl f) \/
    (check = inr true /\ decision = kNoKeyFraming) \/
    (exists ok cloud,
       check = inr ok /\
       (if ok then decision else kEstimationFailed) <> kNoKeyFraming /\
       getPointCloudFromRefFrame (Warp := Warp)
         (set_vo_pose this (fst (fst est))) = inr cloud /\
       (empty (_prev_frame this) = true \/
        (empty (_prev_frame this) = false /\
         ((exists f, check2 = inl f) \/ (exists ok2, check2 = inr ok2))))))).
Proof.
  intros est est2 check check2 decision.
  destruct (hasTemplate (_ref_frame this)) eqn:Href; [right | now left].
  split; [reflexivity |].
  destruct (getPointCloudFromRefFrame_done
              (set_vo_pose this (fst (fst est))) Href) as [cloud Hcloud].
  assert (Hback : empty (_prev_frame this) = true \/
                  (empty (_prev_frame this) = false /\
                   ((exists f, check2 = inl f) \/
                    (exists ok2, check2 = inr ok2)))).
  { destruct (empty (_prev_frame this)); [now left | right].
    split; [reflexivity |]. destruct check2; eauto. }
  destruct check as [f | [|]] eqn:Hcheck.
  - left. eauto.
  - destruct decision eqn:Hdec;
      try (right; right; exists true, cloud;
           repeat split; try assumption; discriminate).
    right. left. now split.
  - right. right. exists false, cloud.
    repeat split; try assumption; discriminate.
Qed.

Ltac by_paths this img dis guess :=
  let Href := fresh "Href" in
  let Hok := fresh "Hok" in
  let Hdec := fresh "Hdec" in
  let Hk := fresh "Hk" in
  let Hcloud := fresh "Hcloud" in
  let Hprev := fresh "Hprev" in
  let Hok2 := fresh "Hok2" in
  let f := fresh "f" in
  let ok := fresh "ok" in
  let ok2 := fresh "ok2" in
  let cloud := fresh "cloud" in
  destruct (addFrame_conditions this img dis guess)
    as [Href | [Href [[f Hok] | [[Hok Hdec] |
        (ok & cloud & Hok & Hk & Hcloud &
         [Hprev | [Hprev [[f Hok2] | [ok2 Hok2]]]])]]]];
  [ rewrite (@addFrame_bootstrap_run _ _ _ _ _ _ _ _ _ _ _ _ _
               this img dis guess Href) in *
  | rewrite (@addFrame_primary_fault _ _ _ _ _ _ _ _ _ _ _ _ _
               this img dis guess f Href Hok) in *
  | rewrite (@addFrame_tracking_run _ _ _ _ _ _ _ _ _ _ _ _ _
               this img dis guess Href Hok Hdec) in *
  | rewrite (@addFrame_starved_run _ _ _ _ _ _ _ _ _ _ _ _ _
               this img dis guess ok cloud Href Hok Hk Hcloud Hprev) in *
  | rewrite (@addFrame_backup_fault _ _ _ _ _ _ _ _ _ _ _ _ _
               this img dis guess ok f cloud Href Hok Hk Hcloud Hprev Hok2)
      in *
  | rewrite (@addFrame_backup_run _ _ _ _ _ _ _ _ _ _ _ _ _
               this img dis guess ok ok2 cloud Href Hok Hk Hcloud Hprev Hok2)
      in * ].

Ltac returned H :=
  cbn [outcome] in H; try discriminate H; injection H as <- <-.

Lemma shouldKeyFrame_range (this : This) (pose : Matrix44) :
  shouldKeyFrame this pose <> kFirstFrame /\
  shouldKeyFrame this pose <> kEstimationFailed.
Proof.
  unfold shouldKeyFrame.
  destruct (Ngtb _ _); [split; discriminate |].
  destruct (Ngtb _ _); [split; discriminate |].
  destruct (Nltb _ _); split; discriminate.
Qed.

(** X3. In every result [addFrame] returns, success is true exactly when
    the reason is no-keyframing, and a result that is not flagged as a
    keyframe is always a success.  (After a backup estimation the flag
    isKeyFrame stays true while the reason may be no-keyframing.) *)
Theorem addFrame_success_iff (this this' : This) (img : Image)
    (dis : Disparity) (guess : Matrix44) (r : Res) :
  outcome (addFrame (Warp := Warp) img dis guess this) = inr (r, this') ->
  (success r = true <-> keyFramingReason r = kNoKeyFraming) /\
  (isKeyFrame r = false -> success r = true).
Proof.
  intros Hrun. by_paths this img dis guess; returned Hrun; cbn.
  - repeat split; discriminate.
  - repeat split.
  - repeat split; try discriminate. intros Habs. now elim Hk.
  - destruct (if ok2 then _ else _); repeat split; discriminate.
Qed.

(** X4. The reason first-frame is returned by the call that finds no
    template in the reference slot, and by no other call. *)
Theorem addFrame_first_frame_reason (this this' : This) (img : Image)
    (dis : Disparity) (guess : Matrix44) (r : Res) :
  outcome (addFrame (Warp := Warp) img dis guess this) = inr (r, this') ->
  (keyFramingReason r = kFirstFrame <-> hasTemplate (_ref_frame this) = false).
Proof.
  intros Hrun. by_paths this img dis guess; returned Hrun; cbn.
  - tauto.
  - rewrite Href. split; discriminate.
  - rewrite Href. split; [| discriminate].
    destruct ok; [| discriminate].
    intros Habs. now elim (proj1 (shouldKeyFrame_range _ _) Habs).
  - rewrite Href. split; [| discriminate].
    destruct ok2; [| discriminate].
    intros Habs. now elim (proj1 (shouldKeyFrame_range _ _) Habs).
Qed.

(** X5. Whatever the object and the inputs, one call of [addFrame] calls
    [estimatePose] at most twice, [checkResult] once per estimate,
    [shouldKeyFrame] at most once per estimate, and extracts the point
    cloud at most once.  This holds for the runs that fault too. *)
Theorem addFrame_call_budget (this : This) (img : Image) (dis : Disparity)
    (guess : Matrix44) :
  let evs := events (addFrame (Warp := Warp) img dis guess this) in
  (length (filter is_EvEstimatePose evs) <= 2)%nat /\
  length (filter is_EvCheckResult evs) = length (filter is_EvEstimatePose evs) /\
  (length (filter is_EvShouldKeyFrame evs)
     <= length (filter is_EvCheckResult evs))%nat /\
  (length (filter is_EvGetPointCloud evs) <= 1)%nat.
Proof.
  intros evs. subst evs. by_paths this img dis guess; cbn [events];
    try destruct ok; try destruct ok2; cbn; lia.
Qed.

(** X6. [shouldKeyFrame] is only called right after [checkResult] has
    accepted the statistics of an estimate: no rejected estimate reaches
    the keyframing decision. *)
Theorem addFrame_decisions_guarded (this : This) (img : Image)
    (dis : Disparity) (guess : Matrix44) :
  decisions_guarded (_params this) None
    (events (addFrame (Warp := Warp) img dis guess this)).
Proof.
  by_paths this img dis guess; cbn [events];
    try destruct ok; try destruct ok2; cbn; intuition.
Qed.

Lemma numLevels_setTemplate (f : Frame) : numLevels (setTemplate f) = numLevels f.
Proof. unfold setTemplate. now destruct (frame_state f). Qed.

(** What a completed call keeps of the object. *)
Lemma addFrame_state_kept (this this' : This) (img : Image)
    (dis : Disparity) (guess : Matrix44) (r : Res) :
  outcome (addFrame (Warp := Warp) img dis guess this) = inr (r, this') ->
  _params this' = _params this /\
  _image_size this' = _image_size this /\
  _trajectory this' =
    (if hasTemplate (_ref_frame this) then _trajectory this
     else _trajectory this ++ [_T_kf this]).
Proof.
  intros Hrun. by_paths this img dis guess; returned Hrun; cbn;
    rewrite Href; repeat split.
Qed.

(** X7. A completed call leaves the parameters and the image size as
    they were, and appends to the trajectory only on the bootstrap path,
    where it appends the accumulated pose; every other call leaves the
    trajectory alone, since the code that would extend it is commented
    out. *)
Theorem addFrame_keeps_configuration (this this' : This) (img : Image)
    (dis : Disparity) (guess : Matrix44) (r : Res) :
  outcome (addFrame (Warp := Warp) img dis guess this) = inr (r, this') ->
  _params this' = _params this /\
  _image_size this' = _image_size this /\
  _trajectory this' =
    (if hasTemplate (_ref_frame this) then _trajectory this
     else _trajectory this ++ [_T_kf this]).
Proof. exact (@addFrame_state_kept this this' img dis guess r). Qed.

(** A completed call leaves a templated reference. *)
Lemma addFrame_leaves_reference (this this' : This) (img : Image)
    (dis : Disparity) (guess : Matrix44) (r : Res) :
  outcome (addFrame (Warp := Warp) img dis guess this) = inr (r, this') ->
  hasTemplate (_ref_frame this') = true.
Proof.
  intros Hrun. by_paths this img dis guess; returned Hrun; cbn;
    first [reflexivity | assumption | now apply hasTemplate_setTemplate].
Qed.

(** The two phases of an object: fresh, or past its first frame. *)
Lemma Reachable_phase (this : This) :
  Reachable (Matrix33 := Matrix33) (Point := Point) (Warp := Warp) this ->
  (hasTemplate (_ref_frame this) = false /\ empty (_prev_frame this) = true /\
   _trajectory this = [] /\ _T_kf this = Identity) \/
  (hasTemplate (_ref_frame this) = true /\ _trajectory this = [Identity]).
Proof.
  induction 1 as [K b s p | this this' img dis guess r Hreach IH Hrun].
  - left. repeat split.
  - right. split; [exact (addFrame_leaves_reference _ _ _ _ Hrun) |].
    destruct (addFrame_state_kept _ _ _ _ Hrun) as [_ [_ ->]].
    destruct IH as [[-> [_ [-> ->]]] | [-> ->]]; reflexivity.
Qed.

(** X8. On every object reached by completed calls the trajectory is
    empty before the first frame and holds exactly the identity pose from
    then on: no later call, keyframe or not, adds a pose to it. *)
Theorem Reachable_trajectory (this : This) :
  Reachable (Matrix33 := Matrix33) (Point := Point) (Warp := Warp) this ->
  _trajectory this = (if hasTemplate (_ref_frame this) then [Identity] else []).
Proof.
  intros Hreach.
  destruct (Reachable_phase Hreach) as [[-> [_ [-> _]]] | [-> ->]];
    reflexivity.
Qed.

(** X9. [addFrame] never allocates, frees or copies a frame: on every
    reachable object the three slots hold the three frames the
    constructor made, each in one slot, and each frame still has the
    number of levels it was built with. *)
Theorem Reachable_frames (this : This) :
  Reachable (Matrix33 := Matrix33) (Point := Point) (Warp := Warp) this ->
  (forall n, In n (slots this) <-> (n < 3)%nat) /\
  NoDup (slots this) /\
  Forall (fun f => numLevels f = Z.to_nat (numPyramidLevels (_params this)))
         [_ref_frame this; _cur_frame this; _prev_frame this].
Proof.
  intros Hreach. split; [| split; [exact (proj2 (Reachable_slots Hreach)) |]].
  - induction Hreach as [K b s p | this this' img dis guess r Hreach IH Hrun].
    + intros n. cbn. lia.
    + intros n. specialize (IH n). unfold slots in *.
      destruct (addFrame_slots_cases _ _ _ _ Hrun)
        as [[_ [-> [-> ->]]] | [[_ [_ [-> [-> ->]]]] |
            [[_ [_ [_ [-> [-> ->]]]]] | [_ [_ [_ [-> [-> ->]]]]]]]];
        rewrite ?storage_setTemplate; unfold fed, setData, clear;
        cbn [storage with_state In] in *; tauto.
  - induction Hreach as [K b s p | this this' img dis guess r Hreach IH Hrun].
    + repeat constructor.
    + destruct (addFrame_state_kept _ _ _ _ Hrun) as [-> _].
      inversion IH as [| f1 l1 Href IH1]; subst.
      inversion IH1 as [| f2 l2 Hcur IH2]; subst.
      inversion IH2 as [| f3 l3 Hprev _]; subst.
      destruct (addFrame_slots_cases _ _ _ _ Hrun)
        as [[_ [-> [-> ->]]] | [[_ [_ [-> [-> ->]]]] |
            [[_ [_ [_ [-> [-> ->]]]]] | [_ [_ [_ [-> [-> ->]]]]]]]];
        repeat constructor; rewrite ?numLevels_setTemplate;
        unfold fed, setData, clear; cbn [numLevels with_state]; assumption.
Qed.

(** X10. On a reachable object every call of [estimatePose] that
    [addFrame] makes, the backup one included, is given a templated
    reference and a raw current frame that live in two distinct frames. *)
Theorem addFrame_estimates_well_formed (this : This) (img : Image)
    (dis : Disparity) (guess : Matrix44) :
  Reachable (Matrix33 := Matrix33) (Point := Point) (Warp := Warp) this ->
  Forall estimate_well_formed
         (events (addFrame (Warp := Warp) img dis guess this)).
Proof.
  intros Hreach. destruct (Reachable_slots Hreach) as [_ Hnd].
  apply NoDup_three in Hnd. destruct Hnd as [Hrc [Hrp Hcp]].
  by_paths this img dis guess; cbn [events];
    try destruct ok; try destruct ok2; cbn [app];
    repeat (first [apply Forall_nil | apply Forall_cons]);
    cbn [estimate_well_formed]; try exact Logic.I;
    rewrite ?storage_setTemplate;
    (split; [first [assumption | now apply hasTemplate_setTemplate] |]);
    (split; [reflexivity |]); (split; [reflexivity |]);
    unfold fed, setData; cbn [storage with_state]; congruence.
Qed.

(** The previous slot after a completed call. *)
Lemma addFrame_previous_slot (this this' : This) (img : Image)
    (dis : Disparity) (guess : Matrix44) (r : Res) :
  Reachable (Matrix33 := Matrix33) (Point := Point) (Warp := Warp) this ->
  outcome (addFrame (Warp := Warp) img dis guess this) = inr (r, this') ->
  (empty (_prev_frame this') = true <-> isKeyFrame r = true).
Proof.
  intros Hreach Hrun. pose proof (Reachable_phase Hreach) as Hphase.
  by_paths this img dis guess; returned Hrun; cbn.
  - destruct Hphase as [[_ [-> _]] | [Habs _]]; [tauto | congruence].
  - split; discriminate.
  - rewrite Hprev. tauto.
  - tauto.
Qed.

(** X11. After a completed call on a reachable object the previous slot
    is empty exactly when the call returned isKeyFrame=true: a tracking
    call leaves its frame as the backup candidate, and every keyframe
    call, the first frame included, leaves none. *)
Theorem addFrame_previous_empty_iff (this this' : This) (img : Image)
    (dis : Disparity) (guess : Matrix44) (r : Res) :
  Reachable (Matrix33 := Matrix33) (Point := Point) (Warp := Warp) this ->
  outcome (addFrame (Warp := Warp) img dis guess this) = inr (r, this') ->
  (empty (_prev_frame this') = true <-> isKeyFrame r = true).
Proof. exact (@addFrame_previous_slot this this' img dis guess r). Qed.

(** X12. Two keyframes in a row: when a completed call on a reachable
    object returned isKeyFrame=true and the next call declares a keyframe
    again, that next call finds no backup candidate; it returns
    success=false with the reason of its only estimate and adopts the
    frame just fed as the reference. *)
Theorem addFrame_keyframe_twice (this this1 : This) (img img2 : Image)
    (dis dis2 : Disparity) (guess guess2 : Matrix44) (r1 : Res)
    (k : KeyFramingReason) :
  Reachable (Matrix33 := Matrix33) (Point := Point) (Warp := Warp) this ->
  outcome (addFrame (Warp := Warp) img dis guess this) = inr (r1, this1) ->
  isKeyFrame r1 = true ->
  primary_reason this1 img2 dis2 guess2 = inr k ->
  k <> kNoKeyFraming ->
  exists r2 this2,
    outcome (addFrame (Warp := Warp) img2 dis2 guess2 this1) = inr (r2, this2) /\
    success r2 = false /\ keyFramingReason r2 = k /\
    _ref_frame this2 = setTemplate (fed this1 img2 dis2) /\
    length (filter is_EvEstimatePose
              (events (addFrame (Warp := Warp) img2 dis2 guess2 this1)))
      = 1%nat.
Proof.
  intros Hreach Hrun Hkey Hreason Hk.
  pose proof (proj2 (addFrame_previous_slot _ _ _ Hreach Hrun) Hkey)
    as Hprev.
  pose proof (addFrame_leaves_reference _ _ _ _ Hrun) as Href.
  destruct (reason_of_done _ _ _ _ Hreason) as [ok [Hok Heq]].
  destruct (getPointCloudFromRefFrame_done
              (set_vo_pose this1 (fst (fst (primary this1 img2 dis2 guess2))))
              Href) as [cloud Hcloud].
  rewrite Heq in Hk.
  rewrite (@addFrame_starved_run _ _ _ _ _ _ _ _ _ _ _ _ _
             this1 img2 dis2 guess2 ok cloud Href Hok Hk Hcloud Hprev).
  eexists. eexists. split; [reflexivity |]. cbn [events].
  repeat split; try (symmetry; exact Heq). now destruct ok.
Qed.



(** X14. After the first frame [addFrame] never assigns the covariance:
    every later result carries the covariance of a default-constructed
    [Result].  A keyframe call without a backup candidate does not assign
    the displacement either. *)
Theorem addFrame_covariance_unset (this this' : This) (img : Image)
    (dis : Disparity) (guess : Matrix44) (r : Res) :
  hasTemplate (_ref_frame this) = true ->
  outcome (addFrame (Warp := Warp) img dis guess this) = inr (r, this') ->
  covariance r = covariance Result_new /\
  (isKeyFrame r = true -> empty (_prev_frame this) = true ->
   displacement r = displacement Result_new).
Proof.
  intros Htemplated Hrun. by_paths this img dis guess; returned Hrun; cbn;
    try congruence; split; try reflexivity; intros; congruence.
Qed.

(** X15. When the estimator returns a statistics vector with no entry at
    [maxTestLevel], [addFrame] reads that vector out of range: the run
    stops in the validator, after one [estimatePose] call and before any
    keyframing decision, point cloud or slot rotation. *)
Theorem addFrame_short_statistics (this : This) (img : Image)
    (dis : Disparity) (guess : Matrix44) :
  hasTemplate (_ref_frame this) = true ->
  let stats := snd (fst (primary this img dis guess)) in
  Z.of_nat (length stats) <= maxTestLevel (_params this) ->
  addFrame (Warp := Warp) img dis guess this =
  {| events := [EvEstimatePose (_ref_frame this) (fed this img dis)
                               (Mmul (_T_kf this) guess);
                EvCheckResult stats];
     outcome := inl (OutOfRange (maxTestLevel (_params this)) (length stats)) |}.
Proof.
  intros Href stats Hshort.
  apply addFrame_primary_fault; [exact Href |].
  fold stats. now rewrite checkResult_short.
Qed.

(** X16. [addFrame] returns a result whenever [maxTestLevel] is a valid
    index of the statistics of the primary estimate and, when the
    previous slot holds a candidate, of the statistics of the backup
    estimate; before the first frame it returns whatever the inputs. *)
Theorem addFrame_completes (this : This) (img : Image) (dis : Disparity)
    (guess : Matrix44) :
  (hasTemplate (_ref_frame this) = true ->
   0 <= maxTestLevel (_params this)
     < Z.of_nat (length (snd (fst (primary this img dis guess)))) /\
   (empty (_prev_frame this) = false ->
    0 <= maxTestLevel (_params this)
      < Z.of_nat (length (snd (fst (backup this img dis guess)))))) ->
  exists r this',
    outcome (addFrame (Warp := Warp) img dis guess this) = inr (r, this').
Proof.
  intros Hlevels. by_paths this img dis guess; cbn [outcome]; eauto.
  - destruct (Hlevels Href) as [Hprimary _].
    destruct (checkResult_returns _ _ Hprimary) as [ok' Hok']. congruence.
  - destruct (Hlevels Href) as [_ Hbackup].
    destruct (checkResult_returns _ _ (Hbackup Hprev)) as [ok' Hok'].
    congruence.
Qed.



End AddFrameMore.

(** ** The public class *)

Section PublicClassFacts.

Context {num Matrix44 Matrix33 Image Disparity Point Warp Est : Type}.
Context {SC : Scalar num} {PO : Pose num Matrix44} {RA : Raster Image}.
Context {TA : TemplateAccess num Image Disparity Point Warp}.
Context {PE : PoseEstimator num Matrix44 Image Disparity Est}.
Context {DF : Defaults num Matrix44 Point}.
Context {MI : MatEmpty Image} {MD : MatEmpty Disparity}.


End PublicClassFacts.

(** ** More theorems on explicit inputs *)

Section MoreExamples.

Import Demo.

Lemma checkResult_negative_level_witness :
  verdict (checkResult DemoZ.below_zero [good; good]) = inl (OutOfRange (-1) 2).
Proof.
  rewrite (checkResult_negative_level DemoZ.below_zero [good; good]);
    reflexivity.
Defined.

Lemma checkResult_verdict_reads_witness :
  verdict (checkResult params [failed; good; costly]) =
  verdict (checkResult params [good; good; good]).
Proof.
  apply (checkResult_verdict_reads params [good; good; good]
                                   [failed; good; costly]);
    [reflexivity | reflexivity |].
  intros i Hi. cbn in Hi. unfold at_index.
  destruct (i <? 0); [reflexivity |].
  destruct (Z.to_nat i) as [| [| [| n]]] eqn:Hn; [lia | | |]; reflexivity.
Defined.

Lemma addFrame_success_iff_witness :
  exists r this',
    outcome (call [small; long; small] image3
                  (after_second [small; long; small])) = inr (r, this') /\
    isKeyFrame r = true /\
    (success r = true <-> keyFramingReason r = kNoKeyFraming).
Proof.
  eexists. eexists. split; [vm_compute; reflexivity |].
  split; [reflexivity |].
  refine (proj1 (addFrame_success_iff (PE := estimator [small; long; small])
                   (Warp := unit) (after_second [small; long; small])
                   image3 image3 Identity _)).
  vm_compute. reflexivity.
Defined.

Lemma addFrame_first_frame_reason_witness :
  exists r this',
    outcome (call [small] image2 (after_first [small])) = inr (r, this') /\
    (keyFramingReason r = kFirstFrame <->
     hasTemplate (_ref_frame (after_first [small])) = false).
Proof.
  eexists. eexists. split; [vm_compute; reflexivity |].
  refine (addFrame_first_frame_reason (PE := estimator [small])
            (Warp := unit) (after_first [small]) image2 image2 Identity _).
  vm_compute. reflexivity.
Defined.

Lemma addFrame_keeps_configuration_witness :
  exists r this',
    outcome (call [long] image2 (after_first [long])) = inr (r, this') /\
    _params this' = _params (after_first [long]) /\
    _image_size this' = _image_size (after_first [long]).
Proof.
  eexists. eexists. split; [vm_compute; reflexivity |].
  refine (let H := addFrame_keeps_configuration (PE := estimator [long])
                     (Warp := unit) (Point := Point3)
                     (after_first [long]) image2 image2 Identity _ in
          conj (proj1 H) (proj1 (proj2 H))).
  vm_compute. reflexivity.
Defined.

Lemma Reachable_trajectory_witness :
  _trajectory (after_first [long]) =
  (if hasTemplate (_ref_frame (after_first [long])) then [Identity] else []).
Proof.
  exact (Reachable_trajectory (Reachable_after_first [long])).
Defined.

Lemma Reachable_frames_witness :
  NoDup (slots (after_first [long])).
Proof.
  exact (proj1 (proj2 (Reachable_frames (Reachable_after_first [long])))).
Defined.

Lemma addFrame_estimates_well_formed_witness :
  Forall estimate_well_formed
         (events (call [long] image2 (after_first [long]))).
Proof.
  exact (addFrame_estimates_well_formed (Warp := unit) (Point := Point3)
           image2 image2 Identity (Reachable_after_first [long])).
Defined.

Lemma addFrame_previous_empty_iff_witness :
  exists r this',
    outcome (call [small] image2 (after_first [small])) = inr (r, this') /\
    (empty (_prev_frame this') = true <-> isKeyFrame r = true).
Proof.
  eexists. eexists. split; [vm_compute; reflexivity |].
  refine (addFrame_previous_empty_iff (Warp := unit) (Point := Point3)
            image2 image2 Identity (Reachable_after_first [small]) _).
  vm_compute. reflexivity.
Defined.

Lemma addFrame_keyframe_twice_witness :
  exists r2 this2,
    outcome (call [long] image2 (after_first [long])) = inr (r2, this2) /\
    success r2 = false /\ keyFramingReason r2 = kLargeTranslation.
Proof.
  destruct (addFrame_keyframe_twice (PE := estimator [long]) (Warp := unit)
              (Point := Point3) (Matrix33 := unit)
              (this := fresh [long]) (this1 := after_first [long])
              (r1 := FirstFrameResult 3) (k := kLargeTranslation)
              image1 image2 image1 image2 Identity Identity)
    as (r2 & this2 & Hrun & Hsuccess & Hreason & _);
    [apply Reachable_new | vm_compute; reflexivity | reflexivity
    | vm_compute; reflexivity | discriminate |].
  exists r2, this2. split; [exact Hrun |].
  split; [exact Hsuccess | exact Hreason].
Defined.

Lemma addFrame_covariance_unset_witness :
  exists r this',
    outcome (call [long] image2 (after_first [long])) = inr (r, this') /\
    covariance r = covariance Result_new.
Proof.
  eexists. eexists. split; [vm_compute; reflexivity |].
  refine (proj1 (addFrame_covariance_unset (PE := estimator [long])
                   (Warp := unit) (Point := Point3)
                   (after_first [long]) image2 image2 Identity _ _));
    vm_compute; reflexivity.
Defined.

Lemma addFrame_short_statistics_witness :
  outcome (call [] image2 (after_first [])) = inl (OutOfRange 1 0).
Proof.
  unfold call.
  rewrite (addFrame_short_statistics (PE := estimator []) (Warp := unit)
             (Point := Point3) (after_first []) image2 image2 Identity);
    [vm_compute; reflexivity | vm_compute; reflexivity
    | vm_compute; discriminate].
Defined.

Lemma addFrame_completes_witness :
  exists r this',
    outcome (addFrame (PE := estimator [small]) (Warp := unit) (Point := Point3)
                      image2 image2 Identity (after_first [small]))
      = inr (r, this').
Proof.
  refine (addFrame_completes (PE := estimator [small]) (Warp := unit)
            (Point := Point3) (after_first [small]) image2 image2 Identity _).
  intros _. split; [vm_compute; split; [discriminate | reflexivity] |].
  intros Hprev. vm_compute in Hprev. discriminate Hprev.
Defined.



End MoreExamples.

Section MoreExamplesZ.

Import Demo.
Import DemoZ.


End MoreExamplesZ.
